(** * seq2struct/models/pretrained_embeddings.py

    A model of the three embedders of [pretrained_embeddings.py] (GloVe,
    BPEmb, SentencePiece) and of the abstract class [Embedder] they derive
    from.

    Python objects live in a heap, one attribute dictionary per instance;
    methods are functions in a state-and-exception monad over the process
    state, so that an exception leaves the mutations made before it in
    place, as in Python.  The third-party libraries the module wraps
    (torchtext, bpemb, the CoreNLP client, torch) are not code of this
    repository: what they return is a parameter of the model, gathered in
    the record [Externals]. *)

From Stdlib Require Import ZArith Lia Ascii String.
From stdpp Require Import base option list gmap strings.

Local Open Scope string_scope.

(** ** Python results and values *)

(** The exceptions the module can let escape.  [ExternalError] stands for
    whatever a wrapped library or service raises. *)
Inductive exn :=
  | AttributeError (attr : string)
  | IndexError
  | TypeError
  | ExternalError (msg : string)
  | DanglingReference.

Inductive res (A : Type) :=
  | Ok (a : A)
  | Raise (e : exn).
Arguments Ok {A} a.
Arguments Raise {A} e.

Definition res_bind {A B} (r : res A) (k : A -> res B) : res B :=
  match r with
  | Ok a => k a
  | Raise e => Raise e
  end.

(** Object identities. *)
Abbreviation loc := positive.

(** A device identifier, opaque to the module. *)
Abbreviation device := string.

(** A float is identified with its bit pattern; no arithmetic is done on
    the entries of a vector table here. *)
Abbreviation float32 := Z.

(** [torchtext.vocab.GloVe(name=kind)]: the attributes the module reads.
    [tt_vectors] is the data of the tensor [.vectors], which torchtext
    leaves on the CPU. *)
Record TorchtextGloVe := {
  tt_dim : Z;
  tt_stoi : gmap string Z;
  tt_vectors : list (list float32)
}.

(** The segmentation model inside a [bpemb.BPEmb] object ([.spm]). *)
Record SentencePieceProcessor := {
  PieceToId : string -> Z;
  unk_id : Z
}.

(** [bpemb.BPEmb(lang=, dim=, vs=)]: the attributes and methods the module
    uses.  [bp_vectors] is the numpy array [.vectors]. *)
Record BPEmbModel := {
  bp_spm : SentencePieceProcessor;
  bp_vectors : list (list float32);
  bp_encode : string -> list string;
  bp_decode : list string -> string
}.

(** Python values.  A list of strings is the only list the module builds
    (token lists, [training_sentences]). *)
Inductive pyval :=
  | VNone
  | VBool (b : bool)
  | VInt (z : Z)
  | VStr (s : string)
  | VStrList (l : list string)
  | VDict (d : gmap string Z)
  | VNdarray (rows : list (list float32))
  | VTensor (dev : device) (rows : list (list float32))
  | VVector (dev : device) (data : list float32)
  | VGloVe (g : TorchtextGloVe)
  | VBPEmb (b : BPEmbModel)
  | VSpm (p : SentencePieceProcessor)
  | VClient (owner : loc)
  | VObj (l : loc).

(** [v is None] *)
Definition is_None (v : pyval) : bool :=
  match v with VNone => true | _ => false end.

(** [a == b], on the values the module compares (piece ids). *)
Definition py_eq (a b : pyval) : bool :=
  match a, b with
  | VInt x, VInt y => Z.eqb x y
  | VNone, VNone => true
  | VBool x, VBool y => Bool.eqb x y
  | VStr x, VStr y => String.eqb x y
  | _, _ => false
  end.

(** [v.name], a data attribute of a library object. *)
Definition getfield (v : pyval) (name : string) : res pyval :=
  match v with
  | VGloVe g =>
      if String.eqb name "stoi" then Ok (VDict (tt_stoi g))
      else if String.eqb name "dim" then Ok (VInt (tt_dim g))
      else if String.eqb name "vectors" then Ok (VTensor "cpu" (tt_vectors g))
      else Raise (AttributeError name)
  | VBPEmb b =>
      if String.eqb name "spm" then Ok (VSpm (bp_spm b))
      else if String.eqb name "vectors" then Ok (VNdarray (bp_vectors b))
      else Raise (AttributeError name)
  | _ => Raise (AttributeError name)
  end.

(** [v.name(args)], a method of a library object or of a builtin, for the
    methods whose result the object alone decides. *)
Definition callmeth (v : pyval) (name : string) (args : list pyval) : res pyval :=
  match v, args with
  | VDict d, [VStr k] =>
      if String.eqb name "get"
      then Ok (match d !! k with Some i => VInt i | None => VNone end)
      else Raise (AttributeError name)
  | VSpm p, [VStr piece] =>
      if String.eqb name "PieceToId" then Ok (VInt (PieceToId p piece))
      else Raise (AttributeError name)
  | VSpm p, [] =>
      if String.eqb name "unk_id" then Ok (VInt (unk_id p))
      else Raise (AttributeError name)
  | VBPEmb b, [VStr text] =>
      if String.eqb name "encode" then Ok (VStrList (bp_encode b text))
      else Raise (AttributeError name)
  | VBPEmb b, [VStrList tokens] =>
      if String.eqb name "decode" then Ok (VStr (bp_decode b tokens))
      else Raise (AttributeError name)
  | VStr sep, [VStrList parts] =>
      if String.eqb name "join" then Ok (VStr (String.concat sep parts))
      else Raise (AttributeError name)
  | VNone, _ => Raise (AttributeError name)
  | _, _ => Raise (AttributeError name)
  end.

(** [t[i]] on a two-dimensional tensor: a negative index counts from the
    end, an index out of range raises [IndexError]. *)
Definition getitem (t i : pyval) : res pyval :=
  match t, i with
  | VTensor dev rows, VInt i =>
      let n := Z.of_nat (length rows) in
      let j := if (i <? 0)%Z then (i + n)%Z else i in
      if ((0 <=? j) && (j <? n))%Z
      then match rows !! Z.to_nat j with
           | Some row => Ok (VVector dev row)
           | None => Raise IndexError
           end
      else Raise IndexError
  | _, _ => Raise TypeError
  end.

Arguments getitem : simpl never.

(** [k in d] *)
Definition py_in (k d : pyval) : res pyval :=
  match k, d with
  | VStr k, VDict d => Ok (VBool (bool_decide (is_Some (d !! k))))
  | _, _ => Raise TypeError
  end.

(** [torch.from_numpy(a)]: a tensor on the CPU over the same data. *)
Definition from_numpy (a : pyval) : res pyval :=
  match a with
  | VNdarray rows => Ok (VTensor "cpu" rows)
  | _ => Raise TypeError
  end.

(** ** The process state *)

Inductive class := Embedder | GloVe | BPEmb | SentencePiece.

(** An instance: its class and its attribute dictionary. *)
Record instance := { cls : class; attrs : gmap string pyval }.

(** A key of the memoization cache: the arguments [(self, text)] of the
    decorated function, [self] compared by identity. *)
Abbreviation key := (loc * string)%type.

Record World := {
  w_heap : gmap loc instance;
  (** [os.environ] *)
  w_environ : gmap string string;
  (** the cache of [functools.lru_cache] around [GloVe.tokenize], most
      recently used entry first; the decorator is applied once, in the
      class body, so there is one cache for the class *)
  w_cache : list (key * pyval);
  (** the requests sent to the annotation service, newest first, each with
      the owner of the client that sent it *)
  w_requests : list (loc * string)
}.

Definition init_world : World :=
  {| w_heap := ∅; w_environ := ∅; w_cache := []; w_requests := [] |}.

Definition set_heap (h : gmap loc instance) (w : World) : World :=
  {| w_heap := h; w_environ := w_environ w;
     w_cache := w_cache w; w_requests := w_requests w |}.

Definition set_environ (e : gmap string string) (w : World) : World :=
  {| w_heap := w_heap w; w_environ := e;
     w_cache := w_cache w; w_requests := w_requests w |}.

Definition set_cache (c : list (key * pyval)) (w : World) : World :=
  {| w_heap := w_heap w; w_environ := w_environ w;
     w_cache := c; w_requests := w_requests w |}.

Definition set_requests (r : list (loc * string)) (w : World) : World :=
  {| w_heap := w_heap w; w_environ := w_environ w;
     w_cache := w_cache w; w_requests := r |}.

(** The state with object [l] set to [o]. *)
Definition with_obj (w : World) (l : loc) (o : instance) : World :=
  set_heap (<[l := o]> (w_heap w)) w.

(** ** The monad of method bodies *)

Definition M (A : Type) : Type := World -> res A * World.

Definition ret {A} (a : A) : M A := fun w => (Ok a, w).

Definition raise {A} (e : exn) : M A := fun w => (Raise e, w).

Definition lift {A} (r : res A) : M A := fun w => (r, w).

Definition bind {A B} (m : M A) (k : A -> M B) : M B := fun w =>
  match m w with
  | (Ok a, w') => k a w'
  | (Raise e, w') => (Raise e, w')
  end.

Notation "'let!' x ':=' m 'in' k" := (bind m (fun x => k))
  (at level 10, x name, m at level 100, k at level 200).

(** [self.name] on an instance: the module's classes define no class
    attribute of the names read this way, so the instance dictionary
    decides. *)
Definition getattr (self : loc) (name : string) : M pyval := fun w =>
  match w_heap w !! self with
  | Some o =>
      match attrs o !! name with
      | Some v => (Ok v, w)
      | None => (Raise (AttributeError name), w)
      end
  | None => (Raise DanglingReference, w)
  end.

(** [self.name = v] *)
Definition setattr (self : loc) (name : string) (v : pyval) : M unit := fun w =>
  match w_heap w !! self with
  | Some o =>
      (Ok tt,
       set_heap (<[self := {| cls := cls o; attrs := <[name := v]> (attrs o) |}]>
                   (w_heap w)) w)
  | None => (Raise DanglingReference, w)
  end.

(** [os.environ[name] = value] *)
Definition putenv (name value : string) : M unit := fun w =>
  (Ok tt, set_environ (<[name := value]> (w_environ w)) w).

(** ** The wrapped libraries *)

Record Externals := {
  (** [torchtext.vocab.GloVe(name=kind)] *)
  ext_load_glove : string -> res TorchtextGloVe;
  (** [bpemb.BPEmb(lang=lang, dim=dim, vs=vocab_size)] *)
  ext_load_bpemb : string -> Z -> Z -> res BPEmbModel;
  (** the annotation service: its answer to a request, which may depend on
      how many requests it has served; an answer is the words of the tokens
      of each sentence *)
  ext_annotate : nat -> string -> res (list (list string));
  (** the absolute path of [third_party/stanford-corenlp-full-2018-10-05] *)
  ext_corenlp_home : string;
  (** the device [tensor.to(device)] moves a tensor to, as torch resolves
      the identifier, or the error it raises for an identifier that names
      no device or a device that is not available *)
  ext_torch_device : device -> res device;
  (** [str.lower], over all of Unicode *)
  ext_str_lower : string -> string
}.

(** ** functools.lru_cache *)

Definition maxsize : nat := 1024.

Definition key_eqb (a b : key) : bool := bool_decide (a = b).

Fixpoint cache_get (k : key) (c : list (key * pyval)) : option pyval :=
  match c with
  | [] => None
  | (k', v) :: c' => if key_eqb k k' then Some v else cache_get k c'
  end.

Fixpoint cache_remove (k : key) (c : list (key * pyval)) : list (key * pyval) :=
  match c with
  | [] => []
  | (k', v) :: c' =>
      if key_eqb k k' then cache_remove k c' else (k', v) :: cache_remove k c'
  end.

(** The wrapper [functools.lru_cache(maxsize=1024)] puts around a method of
    two arguments.  A hit moves the entry to the front and returns the
    stored result without calling the function.  A miss calls it; an
    exception passes through and stores nothing; a result is stored in
    front, and when the cache already holds [maxsize] entries the oldest
    one, at the back, is dropped. *)
Definition lru_cache (f : loc -> string -> M pyval)
    (self : loc) (text : string) : M pyval := fun w =>
  let k := (self, text) in
  match cache_get k (w_cache w) with
  | Some v => (Ok v, set_cache ((k, v) :: cache_remove k (w_cache w)) w)
  | None =>
      match f self text w with
      | (Ok v, w') =>
          let c := w_cache w' in
          (Ok v,
           match cache_get k c with
           | Some _ => w'
           | None =>
               if (maxsize <=? length c)%nat
               then set_cache ((k, v) :: removelast c) w'
               else set_cache ((k, v) :: c) w'
           end)
      | (Raise e, w') => (Raise e, w')
      end
  end.

(** ** The classes *)

(** The methods of the interface, with their arguments. *)
Inductive meth :=
  | Tokenize (text : string)
  | Untokenize (tokens : list string)
  | Lookup (token : string)
  | Contains (token : string)
  | To (dev : device)
  | RequiresTraining
  | AddSentence (sentence : string)
  | Finalize.

(** The constructor calls. *)
Inductive ctor :=
  | New_GloVe (kind : string)
  | New_BPEmb (dim vocab_size : Z) (lang : string)
  | New_SentencePiece (save_prefix : string).

Definition ctor_class (c : ctor) : class :=
  match c with
  | New_GloVe _ => GloVe
  | New_BPEmb _ _ _ => BPEmb
  | New_SentencePiece _ => SentencePiece
  end.

Inductive call :=
  | New (c : ctor)
  | Invoke (self : loc) (m : meth).

Section Embedders.

Context (ext : Externals).

(** *** class Embedder *)

(** [t.to(dev)] on a tensor: the same rows on the device torch resolves
    [dev] to, or torch's error. *)
Definition tensor_to (t : pyval) (dev : device) : res pyval :=
  match t with
  | VTensor _ rows =>
      res_bind (ext_torch_device ext dev) (fun d => Ok (VTensor d rows))
  | _ => Raise (AttributeError "to")
  end.

(** The body of every method of the abstract class is [pass]. *)
Definition Embedder_add_sentence (self : loc) (sentence : string) : M pyval :=
  ret VNone.

Definition Embedder_finalize (self : loc) : M pyval :=
  ret VNone.

(** *** class GloVe *)

Definition GloVe_init (self : loc) (kind : string) : M pyval :=
  let! g := lift (ext_load_glove ext kind) in
  let! _ := setattr self "glove" (VGloVe g) in
  let! _ := setattr self "_corenlp_client" VNone in
  let! g := getattr self "glove" in
  let! d := lift (getfield g "dim") in
  let! _ := setattr self "dim" d in
  let! g := getattr self "glove" in
  let! v := lift (getfield g "vectors") in
  let! _ := setattr self "vectors" v in
  ret VNone.

(** The property [corenlp_client]: the client is created on first use. *)
Definition GloVe_corenlp_client (self : loc) : M pyval :=
  let! c := getattr self "_corenlp_client" in
  let! _ := (if is_None c
             then let! _ := putenv "CORENLP_HOME" (ext_corenlp_home ext) in
                  setattr self "_corenlp_client" (VClient self)
             else ret tt) in
  getattr self "_corenlp_client".

(** [client.annotate(text)]: one request to the service. *)
Definition annotate (client : pyval) (text : string)
    : M (list (list string)) := fun w =>
  match client with
  | VClient owner =>
      (ext_annotate ext (length (w_requests w)) text,
       set_requests ((owner, text) :: w_requests w) w)
  | _ => (Raise (AttributeError "annotate"), w)
  end.

(** The function under the decorator. *)
Definition GloVe_tokenize_body (self : loc) (text : string) : M pyval :=
  let! c := GloVe_corenlp_client self in
  let! ann := annotate c text in
  ret (VStrList (flat_map (fun sent => map (ext_str_lower ext) sent) ann)).

Definition GloVe_tokenize : loc -> string -> M pyval :=
  lru_cache GloVe_tokenize_body.

Definition GloVe_untokenize (self : loc) (tokens : list string) : M pyval :=
  lift (callmeth (VStr " ") "join" [VStrList tokens]).

Definition GloVe_lookup (self : loc) (token : string) : M pyval :=
  let! g := getattr self "glove" in
  let! stoi := lift (getfield g "stoi") in
  let! i := lift (callmeth stoi "get" [VStr token]) in
  if is_None i then ret VNone
  else
    let! v := getattr self "vectors" in
    lift (getitem v i).

Definition GloVe_contains (self : loc) (token : string) : M pyval :=
  let! g := getattr self "glove" in
  let! stoi := lift (getfield g "stoi") in
  lift (py_in (VStr token) stoi).

Definition GloVe_to (self : loc) (dev : device) : M pyval :=
  let! v := getattr self "vectors" in
  let! v' := lift (tensor_to v dev) in
  let! _ := setattr self "vectors" v' in
  ret VNone.

Definition GloVe_requires_training (self : loc) : M pyval :=
  ret (VBool false).

(** *** class BPEmb *)

Definition BPEmb_init (self : loc) (dim vocab_size : Z) (lang : string)
    : M pyval :=
  let! b := lift (ext_load_bpemb ext lang dim vocab_size) in
  let! _ := setattr self "bpemb" (VBPEmb b) in
  let! _ := setattr self "dim" (VInt dim) in
  let! b := getattr self "bpemb" in
  let! a := lift (getfield b "vectors") in
  let! v := lift (from_numpy a) in
  let! _ := setattr self "vectors" v in
  ret VNone.

Definition BPEmb_tokenize (self : loc) (text : string) : M pyval :=
  let! b := getattr self "bpemb" in
  lift (callmeth b "encode" [VStr text]).

Definition BPEmb_untokenize (self : loc) (tokens : list string) : M pyval :=
  let! b := getattr self "bpemb" in
  lift (callmeth b "decode" [VStrList tokens]).

Definition BPEmb_lookup (self : loc) (token : string) : M pyval :=
  let! b := getattr self "bpemb" in
  let! s := lift (getfield b "spm") in
  let! i := lift (callmeth s "PieceToId" [VStr token]) in
  let! b' := getattr self "bpemb" in
  let! s' := lift (getfield b' "spm") in
  let! u := lift (callmeth s' "unk_id" []) in
  if py_eq i u then ret VNone
  else
    let! v := getattr self "vectors" in
    lift (getitem v i).

Definition BPEmb_contains (self : loc) (token : string) : M pyval :=
  let! r := BPEmb_lookup self token in
  ret (VBool (negb (is_None r))).

Definition BPEmb_to (self : loc) (dev : device) : M pyval :=
  let! v := getattr self "vectors" in
  let! v' := lift (tensor_to v dev) in
  let! _ := setattr self "vectors" v' in
  ret VNone.

Definition BPEmb_requires_training (self : loc) : M pyval :=
  ret (VBool false).

(** *** class SentencePiece *)

(** [save_prefix] is not used. *)
Definition SentencePiece_init (self : loc) (save_prefix : string) : M pyval :=
  let! _ := setattr self "training_sentences" (VStrList []) in
  let! _ := setattr self "spm" VNone in
  ret VNone.

Definition SentencePiece_tokenize (self : loc) (text : string) : M pyval :=
  let! s := getattr self "spm" in
  lift (callmeth s "encode" [VStr text]).

Definition SentencePiece_untokenize (self : loc) (tokens : list string)
    : M pyval :=
  let! b := getattr self "bpemb" in
  lift (callmeth b "decode" [VStrList tokens]).

Definition SentencePiece_lookup (self : loc) (token : string) : M pyval :=
  let! b := getattr self "bpemb" in
  let! s := lift (getfield b "spm") in
  let! i := lift (callmeth s "PieceToId" [VStr token]) in
  let! b' := getattr self "bpemb" in
  let! s' := lift (getfield b' "spm") in
  let! u := lift (callmeth s' "unk_id" []) in
  if py_eq i u then ret VNone
  else
    let! v := getattr self "vectors" in
    lift (getitem v i).

Definition SentencePiece_contains (self : loc) (token : string) : M pyval :=
  let! r := SentencePiece_lookup self token in
  ret (VBool (negb (is_None r))).

Definition SentencePiece_to (self : loc) (dev : device) : M pyval :=
  let! v := getattr self "vectors" in
  let! v' := lift (tensor_to v dev) in
  let! _ := setattr self "vectors" v' in
  ret VNone.

Definition SentencePiece_requires_training (self : loc) : M pyval :=
  ret (VBool false).

(** *** Method resolution *)

(** The method a class body defines itself, if it does. *)
Definition own_method (c : class) (m : meth) : option (loc -> M pyval) :=
  match c, m with
  | Embedder, AddSentence s => Some (fun self => Embedder_add_sentence self s)
  | Embedder, Finalize => Some Embedder_finalize
  | Embedder, _ => Some (fun _ => ret VNone)
  | GloVe, Tokenize text => Some (fun self => GloVe_tokenize self text)
  | GloVe, Untokenize tokens => Some (fun self => GloVe_untokenize self tokens)
  | GloVe, Lookup token => Some (fun self => GloVe_lookup self token)
  | GloVe, Contains token => Some (fun self => GloVe_contains self token)
  | GloVe, To dev => Some (fun self => GloVe_to self dev)
  | GloVe, RequiresTraining => Some GloVe_requires_training
  | BPEmb, Tokenize text => Some (fun self => BPEmb_tokenize self text)
  | BPEmb, Untokenize tokens => Some (fun self => BPEmb_untokenize self tokens)
  | BPEmb, Lookup token => Some (fun self => BPEmb_lookup self token)
  | BPEmb, Contains token => Some (fun self => BPEmb_contains self token)
  | BPEmb, To dev => Some (fun self => BPEmb_to self dev)
  | BPEmb, RequiresTraining => Some BPEmb_requires_training
  | SentencePiece, Tokenize text =>
      Some (fun self => SentencePiece_tokenize self text)
  | SentencePiece, Untokenize tokens =>
      Some (fun self => SentencePiece_untokenize self tokens)
  | SentencePiece, Lookup token =>
      Some (fun self => SentencePiece_lookup self token)
  | SentencePiece, Contains token =>
      Some (fun self => SentencePiece_contains self token)
  | SentencePiece, To dev => Some (fun self => SentencePiece_to self dev)
  | SentencePiece, RequiresTraining => Some SentencePiece_requires_training
  | _, AddSentence _ => None
  | _, Finalize => None
  end.

(** The three embedders derive from [Embedder] alone. *)
Definition base (c : class) : option class :=
  match c with
  | Embedder => None
  | _ => Some Embedder
  end.

(** Attribute lookup along the method resolution order. *)
Definition resolve (c : class) (m : meth) : option (loc -> M pyval) :=
  match own_method c m with
  | Some f => Some f
  | None =>
      match base c with
      | Some b => own_method b m
      | None => None
      end
  end.

(** [self.m(...)] *)
Definition invoke (self : loc) (m : meth) : M pyval := fun w =>
  match w_heap w !! self with
  | Some o =>
      match resolve (cls o) m with
      | Some f => f self w
      | None => (Raise (AttributeError "method"), w)
      end
  | None => (Raise DanglingReference, w)
  end.

Definition init (c : ctor) (self : loc) : M pyval :=
  match c with
  | New_GloVe kind => GloVe_init self kind
  | New_BPEmb dim vocab_size lang => BPEmb_init self dim vocab_size lang
  | New_SentencePiece save_prefix => SentencePiece_init self save_prefix
  end.

(** [Class(args)]: a new object with an empty dictionary is handed to
    [__init__]; when [__init__] raises, nothing refers to the object and it
    is gone. *)
Definition new (c : ctor) : M pyval := fun w =>
  let l := fresh (dom (w_heap w)) in
  let w0 := set_heap (<[l := {| cls := ctor_class c; attrs := ∅ |}]> (w_heap w)) w in
  match init c l w0 with
  | (Ok _, w1) => (Ok (VObj l), w1)
  | (Raise e, w1) => (Raise e, set_heap (delete l (w_heap w1)) w1)
  end.

Definition exec (c : call) : M pyval :=
  match c with
  | New k => new k
  | Invoke self m => invoke self m
  end.

(** The state after a sequence of calls, and the results along the way. *)
Definition run (cs : list call) (w : World) : World :=
  foldl (fun w c => snd (exec c w)) w cs.

Fixpoint outcomes (cs : list call) (w : World) : list (res pyval) :=
  match cs with
  | [] => []
  | c :: cs' => fst (exec c w) :: outcomes cs' (snd (exec c w))
  end.

(** The states a program can reach from the start of the process. *)
Inductive reachable : World -> Prop :=
  | reach_init : reachable init_world
  | reach_step w c : reachable w -> reachable (snd (exec c w)).

End Embedders.

(** ** Invariants of the reachable states *)

Section Invariants.

Context (ext : Externals).

(** A GloVe instance holds what its constructor loaded: the library object,
    its [dim], its table (on some device), and a client that is either not
    created yet or the instance's own. *)
Definition glove_ok (l : loc) (a : gmap string pyval) : Prop :=
  exists kind g dev,
    ext_load_glove ext kind = Ok g /\
    a !! "glove" = Some (VGloVe g) /\
    a !! "dim" = Some (VInt (tt_dim g)) /\
    a !! "vectors" = Some (VTensor dev (tt_vectors g)) /\
    (a !! "_corenlp_client" = Some VNone \/
     a !! "_corenlp_client" = Some (VClient l)).

Definition bpemb_ok (a : gmap string pyval) : Prop :=
  exists lang dim vocab_size b dev,
    ext_load_bpemb ext lang dim vocab_size = Ok b /\
    a !! "bpemb" = Some (VBPEmb b) /\
    a !! "dim" = Some (VInt dim) /\
    a !! "vectors" = Some (VTensor dev (bp_vectors b)).

(** The dictionary of a SentencePiece instance, as its constructor leaves
    it. *)
Definition sentencepiece_attrs : gmap string pyval :=
  <["spm" := VNone]> (<["training_sentences" := VStrList []]> ∅).

(** The dictionaries the constructors of GloVe and BPEmb leave. *)
Definition GloVe_attrs (g : TorchtextGloVe) : gmap string pyval :=
  <["vectors" := VTensor "cpu" (tt_vectors g)]>
    (<["dim" := VInt (tt_dim g)]>
       (<["_corenlp_client" := VNone]> (<["glove" := VGloVe g]> ∅))).

Definition BPEmb_attrs (dim : Z) (b : BPEmbModel) : gmap string pyval :=
  <["vectors" := VTensor "cpu" (bp_vectors b)]>
    (<["dim" := VInt dim]> (<["bpemb" := VBPEmb b]> ∅)).

Definition obj_ok (l : loc) (o : instance) : Prop :=
  match cls o with
  | Embedder => False
  | GloVe => glove_ok l (attrs o)
  | BPEmb => bpemb_ok (attrs o)
  | SentencePiece => attrs o = sentencepiece_attrs
  end.

Definition is_GloVe (w : World) (l : loc) : Prop :=
  exists o, w_heap w !! l = Some o /\ cls o = GloVe.

Record Inv (w : World) : Prop := {
  inv_heap : forall l o, w_heap w !! l = Some o -> obj_ok l o;
  inv_cache_size : (length (w_cache w) <= maxsize)%nat;
  inv_cache_keys : NoDup ((w_cache w).*1);
  inv_cache_owner : forall k, k ∈ (w_cache w).*1 -> is_GloVe w (fst k)
}.

(** The wrapped libraries hand out consistent objects: every index of the
    GloVe vocabulary is a row of its table, ... *)
Definition glove_index_ok : Prop :=
  forall kind g token i,
    ext_load_glove ext kind = Ok g ->
    tt_stoi g !! token = Some i ->
    (0 <= i < Z.of_nat (length (tt_vectors g)))%Z.

(** ... and every row of a table has the width the object was loaded
    for. *)
Definition width_ok : Prop :=
  (forall kind g, ext_load_glove ext kind = Ok g ->
     Forall (fun row => Z.of_nat (length row) = tt_dim g) (tt_vectors g)) /\
  (forall lang dim vocab_size b, ext_load_bpemb ext lang dim vocab_size = Ok b ->
     Forall (fun row => Z.of_nat (length row) = dim) (bp_vectors b)).

(** A method body that leaves the state as it is. *)
Definition pure {A} (m : M A) : Prop := forall w, snd (m w) = w.

(** [contains(t)] seen as the expression [lookup(t) is not None]. *)
Definition is_not_None (r : res pyval) : res pyval :=
  res_bind r (fun v => Ok (VBool (negb (is_None v)))).

(** The words of an annotation, lower-cased, in order. *)
Definition tokens_of (r : res (list (list string))) : res pyval :=
  res_bind r (fun ann =>
    Ok (VStrList (flat_map (fun sent => map (ext_str_lower ext) sent) ann))).

(** The cache after a miss that stored [v]. *)
Definition cache_store (k : key) (v : pyval) (c : list (key * pyval))
    : list (key * pyval) :=
  if (maxsize <=? length c)%nat then (k, v) :: removelast c else (k, v) :: c.

(** The key is in the cache. *)
Definition cached (k : key) (w : World) : Prop :=
  is_Some (cache_get k (w_cache w)).

(** Every stored result is an answer of the annotation service to the
    text of its key. *)
Definition cache_from_service (w : World) : Prop :=
  forall k v, (k, v) ∈ w_cache w ->
    exists n, tokens_of (ext_annotate ext n (snd k)) = Ok v.

(** The service answers a text the same way each time. *)
Definition deterministic_service : Prop :=
  forall n m text, ext_annotate ext n text = ext_annotate ext m text.

(** The key is in the cache after each call of the sequence. *)
Fixpoint stays_cached (k : key) (cs : list call) (w : World) : Prop :=
  match cs with
  | [] => True
  | c :: cs' =>
      cached k (snd (exec ext c w)) /\ stays_cached k cs' (snd (exec ext c w))
  end.

(** The key a call uses: that of a [tokenize] on a GloVe instance that
    returns a result, from the cache or from the service.  A call that
    raises, a call of another method and a call on another class use no
    key. *)
Definition used (c : call) (w : World) : option key :=
  match c with
  | Invoke self (Tokenize text) =>
      match w_heap w !! self with
      | Some o =>
          match cls o, fst (exec ext c w) with
          | GloVe, Ok _ => Some (self, text)
          | _, _ => None
          end
      | None => None
      end
  | _ => None
  end.

(** The keys in order of their last use, most recent first, after a use of
    [k]: [k] in front, the others in the order they had. *)
Definition touch (k : key) (hist : list key) : list key :=
  k :: filter (fun k' => k' <> k) hist.

(** The keys in order of their last use after a sequence of calls that
    starts in [w], where the order was [hist]. *)
Fixpoint recency (cs : list call) (w : World) (hist : list key) : list key :=
  match cs with
  | [] => hist
  | c :: cs' =>
      recency cs' (snd (exec ext c w))
        (match used c w with Some k => touch k hist | None => hist end)
  end.

(** The number of cache entries whose key names the instance [a]. *)
Definition entries_of (a : loc) (w : World) : nat :=
  length (filter (fun e : key * pyval => fst (fst e) = a) (w_cache w)).

(** The number of requests a client has sent for a text. *)
Definition requests_for (k : key) (w : World) : nat :=
  length (filter (fun r => r = k) (w_requests w)).

End Invariants.

(** ** Further notions *)

Section Notions.

Context (ext : Externals).

(** A result seen on another device: a vector keeps its data. *)
Definition on_device (dev : device) (r : res pyval) : res pyval :=
  match r with
  | Ok (VVector _ data) => Ok (VVector dev data)
  | _ => r
  end.

(** The state once the instance [self], which is [o], has its client: the
    first use sets the environment variable and the attribute, later uses
    change nothing. *)
Definition start_client (self : loc) (o : instance) (w : World) : World :=
  match attrs o !! "_corenlp_client" with
  | Some VNone =>
      set_heap
        (<[self := {| cls := cls o;
                      attrs := <["_corenlp_client" := VClient self]> (attrs o) |}]>
           (w_heap w))
        (set_environ (<["CORENLP_HOME" := ext_corenlp_home ext]> (w_environ w)) w)
  | _ => w
  end.


(** What the instance [self] is made of, the device of its table apart:
    its class, the library objects, [dim] and the rows of the table. *)
Definition table_rows (v : option pyval) : option (list (list float32)) :=
  match v with
  | Some (VTensor _ rows) => Some rows
  | _ => None
  end.

Definition same_model (o o' : instance) : Prop :=
  cls o' = cls o /\
  attrs o' !! "glove" = attrs o !! "glove" /\
  attrs o' !! "bpemb" = attrs o !! "bpemb" /\
  attrs o' !! "dim" = attrs o !! "dim" /\
  table_rows (attrs o' !! "vectors") = table_rows (attrs o !! "vectors").


(** The state [w'] is [w] with one new object at [l] and nothing else
    changed. *)
Definition allocated (w : World) (l : loc) (w' : World) : Prop :=
  w_heap w !! l = None /\ is_Some (w_heap w' !! l) /\
  (forall l', l' <> l -> w_heap w' !! l' = w_heap w !! l') /\
  w_cache w' = w_cache w /\ w_requests w' = w_requests w /\
  w_environ w' = w_environ w.

End Notions.

(** ** A small installation, for examples *)

Definition demo_glove : TorchtextGloVe :=
  {| tt_dim := 2;
     tt_stoi := <["the" := 0%Z]> (<["cat" := 1%Z]> ∅);
     tt_vectors := [[10; 11]; [20; 21]]%Z |}.

Definition demo_spm : SentencePieceProcessor :=
  {| PieceToId := fun piece => if String.eqb piece "_a" then 1%Z else 0%Z;
     unk_id := 0%Z |}.

Definition demo_bpemb : BPEmbModel :=
  {| bp_spm := demo_spm;
     bp_vectors := [[1; 2; 3]; [4; 5; 6]]%Z;
     bp_encode := fun text => if String.eqb text "" then [] else [text];
     bp_decode := String.concat "" |}.

(** The lower-casing of the small installation.  Its texts are ASCII, where
    [str.lower] maps the letters A to Z, byte by byte, and nothing else;
    the examples use it on such texts only. *)
Definition ascii_lower_char (c : Ascii.ascii) : Ascii.ascii :=
  let n := Ascii.nat_of_ascii c in
  if ((65 <=? n) && (n <=? 90))%nat then Ascii.ascii_of_nat (n + 32) else c.

Fixpoint ascii_lower (s : string) : string :=
  match s with
  | EmptyString => EmptyString
  | String c s' => String (ascii_lower_char c) (ascii_lower s')
  end.

(** The devices of the small installation: the CPU and two GPUs. *)
Definition demo_torch_device (dev : device) : res device :=
  if String.eqb dev "cpu" then Ok "cpu"
  else if String.eqb dev "cuda" then Ok "cuda:0"
  else if String.eqb dev "cuda:0" then Ok "cuda:0"
  else if String.eqb dev "cuda:1" then Ok "cuda:1"
  else Raise (ExternalError "Expected one of cpu, cuda, ... device type").

Definition demo_ext : Externals :=
  {| ext_load_glove := fun kind =>
       if String.eqb kind "6B" then Ok demo_glove
       else Raise (ExternalError "no such vectors");
     ext_load_bpemb := fun lang dim vocab_size =>
       if (dim =? 3)%Z then Ok demo_bpemb
       else Raise (ExternalError "no such model");
     ext_annotate := fun n text =>
       if String.eqb text "" then Ok [] else Ok [[text]];
     ext_corenlp_home := "/opt/stanford-corenlp-full-2018-10-05";
     ext_torch_device := demo_torch_device;
     ext_str_lower := ascii_lower |}.

(** One instance of each class: objects 1, 2 and 3. *)
Definition demo_calls : list call :=
  [New (New_GloVe "6B"); New (New_BPEmb 3 100 "en"); New (New_SentencePiece "spm")].

Definition demo_world : World := run demo_ext demo_calls init_world.

Definition demo_glove_obj : instance :=
  {| cls := GloVe; attrs := GloVe_attrs demo_glove |}.

Definition demo_sentencepiece_obj : instance :=
  {| cls := SentencePiece; attrs := sentencepiece_attrs |}.

(** The first instance once it has tokenized: its client exists. *)
Definition demo_glove_client_obj : instance :=
  {| cls := GloVe;
     attrs := <["_corenlp_client" := VClient 1]> (GloVe_attrs demo_glove) |}.

(** Distinct texts: the binary digits of a positive number, lowest first. *)
Fixpoint text_of (p : positive) : string :=
  match p with
  | xH => "1"
  | xO q => String "0" (text_of q)
  | xI q => String "1" (text_of q)
  end.

(** A second GloVe instance, object 4, and then 1024 texts tokenized on the
    first one, [text_of 1] first: the cache is full, and its least recently
    used entry is the one of [text_of 1]. *)
Definition fill_calls : list call :=
  New (New_GloVe "6B") ::
  map (fun n => Invoke 1 (Tokenize (text_of (Pos.of_nat n)))) (seq 1 1024).

Definition full_world : World := run demo_ext fill_calls demo_world.

(** The same state, computed once. *)
Definition full_world_nf : World := Eval vm_compute in full_world.

(** The BPEmb instance of the small installation, object 2. *)
Definition demo_bpemb_obj : instance :=
  {| cls := BPEmb; attrs := BPEmb_attrs 3 demo_bpemb |}.

(** The same installation with an annotation service that is down for its
    first two requests. *)
Definition down_ext : Externals :=
  {| ext_load_glove := ext_load_glove demo_ext;
     ext_load_bpemb := ext_load_bpemb demo_ext;
     ext_annotate := fun n text =>
       if (n <? 2)%nat then Raise (ExternalError "connection refused")
       else Ok [[text]];
     ext_corenlp_home := ext_corenlp_home demo_ext;
     ext_torch_device := demo_torch_device;
     ext_str_lower := ascii_lower |}.

Definition down_world : World := run down_ext [New (New_GloVe "6B")] init_world.

(** An installation whose vocabularies name rows the tables do not have:
    two rows, and the indices 5 and -1, and the piece id 7. *)
Definition odd_glove : TorchtextGloVe :=
  {| tt_dim := 2;
     tt_stoi := <["far" := 5%Z]> (<["last" := (-1)%Z]> ∅);
     tt_vectors := [[10; 11]; [20; 21]]%Z |}.

Definition odd_bpemb : BPEmbModel :=
  {| bp_spm := {| PieceToId := fun piece =>
                    if String.eqb piece "far" then 7%Z else 0%Z;
                  unk_id := 0%Z |};
     bp_vectors := [[1; 2; 3]; [4; 5; 6]]%Z;
     bp_encode := fun text => [text];
     bp_decode := String.concat "" |}.

Definition odd_ext : Externals :=
  {| ext_load_glove := fun kind => Ok odd_glove;
     ext_load_bpemb := fun lang dim vocab_size => Ok odd_bpemb;
     ext_annotate := fun n text => Ok [[text]];
     ext_corenlp_home := ext_corenlp_home demo_ext;
     ext_torch_device := demo_torch_device;
     ext_str_lower := ascii_lower |}.

Definition odd_world : World :=
  run odd_ext [New (New_GloVe "6B"); New (New_BPEmb 3 100 "en")] init_world.

Definition odd_glove_obj : instance :=
  {| cls := GloVe; attrs := GloVe_attrs odd_glove |}.

Definition odd_bpemb_obj : instance :=
  {| cls := BPEmb; attrs := BPEmb_attrs 3 odd_bpemb |}.

(** * Proofs *)

Section Proofs.

Context (ext : Externals).

Implicit Types (w : World) (self l : loc) (o : instance).

(** ** The monad *)

Lemma pure_ret {A} (a : A) : pure (ret a).
Proof. done. Qed.

Lemma pure_raise {A} e : pure (@raise A e).
Proof. done. Qed.

Lemma pure_lift {A} (r : res A) : pure (lift r).
Proof. done. Qed.

Lemma pure_getattr self name : pure (getattr self name).
Proof.
  intros w. unfold getattr.
  destruct (w_heap w !! self) as [o|]; [|done].
  by destruct (attrs o !! name).
Qed.

Lemma pure_bind {A B} (m : M A) (k : A -> M B) :
  pure m -> (forall a, pure (k a)) -> pure (bind m k).
Proof.
  intros Hm Hk w. unfold bind.
  specialize (Hm w). destruct (m w) as [[a|e] w']; simpl in *; subst; [|done].
  apply Hk.
Qed.

Lemma pure_run {A} (m : M A) w : pure m -> m w = (fst (m w), w).
Proof. intros H. rewrite <- (H w) at 3. by destruct (m w). Qed.

Lemma bind_pure_fst {A B} (m : M A) (k : A -> M B) w :
  pure m ->
  bind m k w = match fst (m w) with
               | Ok a => k a w
               | Raise e => (Raise e, w)
               end.
Proof.
  intros H. unfold bind. rewrite (pure_run m w H). simpl.
  by destruct (fst (m w)).
Qed.

Lemma getattr_Some w self o name v :
  w_heap w !! self = Some o -> attrs o !! name = Some v ->
  getattr self name w = (Ok v, w).
Proof. intros H1 H2. unfold getattr. by rewrite H1, H2. Qed.

Lemma getattr_None w self o name :
  w_heap w !! self = Some o -> attrs o !! name = None ->
  getattr self name w = (Raise (AttributeError name), w).
Proof. intros H1 H2. unfold getattr. by rewrite H1, H2. Qed.

Ltac pure_steps :=
  repeat first
    [ apply pure_ret | apply pure_raise | apply pure_lift | apply pure_getattr
    | apply pure_bind; [|intros ?]
    | match goal with |- pure (if ?b then _ else _) => destruct b end ].

(** ** Bodies that read and do not write *)

Lemma pure_GloVe_untokenize self tokens : pure (GloVe_untokenize self tokens).
Proof. unfold GloVe_untokenize. pure_steps. Qed.

Lemma pure_GloVe_lookup self token : pure (GloVe_lookup self token).
Proof. unfold GloVe_lookup. pure_steps. Qed.

Lemma pure_GloVe_contains self token : pure (GloVe_contains self token).
Proof. unfold GloVe_contains. pure_steps. Qed.

Lemma pure_BPEmb_tokenize self text : pure (BPEmb_tokenize self text).
Proof. unfold BPEmb_tokenize. pure_steps. Qed.

Lemma pure_BPEmb_untokenize self tokens : pure (BPEmb_untokenize self tokens).
Proof. unfold BPEmb_untokenize. pure_steps. Qed.

Lemma pure_BPEmb_lookup self token : pure (BPEmb_lookup self token).
Proof. unfold BPEmb_lookup. pure_steps. Qed.

Lemma pure_BPEmb_contains self token : pure (BPEmb_contains self token).
Proof. unfold BPEmb_contains. pure_steps. Qed.

Lemma pure_SentencePiece_tokenize self text :
  pure (SentencePiece_tokenize self text).
Proof. unfold SentencePiece_tokenize. pure_steps. Qed.

Lemma pure_SentencePiece_untokenize self tokens :
  pure (SentencePiece_untokenize self tokens).
Proof. unfold SentencePiece_untokenize. pure_steps. Qed.

Lemma pure_SentencePiece_lookup self token :
  pure (SentencePiece_lookup self token).
Proof. unfold SentencePiece_lookup. pure_steps. Qed.

Lemma pure_SentencePiece_contains self token :
  pure (SentencePiece_contains self token).
Proof. unfold SentencePiece_contains. pure_steps. Qed.

(** ** What the writing bodies write *)

Lemma set_heap_id w : set_heap (w_heap w) w = w.
Proof. by destruct w. Qed.

(** [to] replaces the table by the same rows on the device torch resolves,
    or fails with torch's error and writes nothing. *)
Lemma to_spec w self o dev rows dev' :
  w_heap w !! self = Some o ->
  attrs o !! "vectors" = Some (VTensor dev rows) ->
  GloVe_to ext self dev' w =
    match ext_torch_device ext dev' with
    | Ok d =>
        (Ok VNone,
         set_heap (<[self := {| cls := cls o;
                                attrs := <["vectors" := VTensor d rows]> (attrs o) |}]>
                     (w_heap w)) w)
    | Raise e => (Raise e, w)
    end.
Proof.
  intros Ho Hv. unfold GloVe_to, bind.
  rewrite (getattr_Some _ _ _ _ _ Ho Hv). simpl.
  destruct (ext_torch_device ext dev') as [d|e]; [|done]. simpl.
  unfold setattr. by rewrite Ho.
Qed.

Lemma to_unset w self o dev' :
  w_heap w !! self = Some o ->
  attrs o !! "vectors" = None ->
  GloVe_to ext self dev' w = (Raise (AttributeError "vectors"), w).
Proof.
  intros Ho Hv. unfold GloVe_to, bind.
  by rewrite (getattr_None _ _ _ _ Ho Hv).
Qed.

(** The three classes spell [to] the same way. *)
Lemma BPEmb_to_eq self dev : BPEmb_to ext self dev = GloVe_to ext self dev.
Proof. done. Qed.

Lemma SentencePiece_to_eq self dev : SentencePiece_to ext self dev = GloVe_to ext self dev.
Proof. done. Qed.

Lemma SentencePiece_lookup_eq self token :
  SentencePiece_lookup self token = BPEmb_lookup self token.
Proof. done. Qed.

(** The client property: afterwards the instance has its own client; the
    cache and the request log are untouched. *)
Lemma corenlp_client_spec w self o :
  w_heap w !! self = Some o -> cls o = GloVe -> glove_ok ext self (attrs o) ->
  exists w1 o1,
    GloVe_corenlp_client ext self w = (Ok (VClient self), w1) /\
    w_heap w1 = <[self := o1]> (w_heap w) /\
    cls o1 = GloVe /\ glove_ok ext self (attrs o1) /\
    w_cache w1 = w_cache w /\ w_requests w1 = w_requests w.
Proof.
  intros Ho Hc (kind & g & dev & Hload & Hg & Hd & Hv & [Hn|Hn]).
  - exists (set_heap (<[self := {| cls := cls o;
        attrs := <["_corenlp_client" := VClient self]> (attrs o) |}]> (w_heap w))
        (set_environ (<["CORENLP_HOME" := ext_corenlp_home ext]> (w_environ w)) w)).
    eexists. split; [|split; [reflexivity|]].
    + unfold GloVe_corenlp_client, bind.
      rewrite (getattr_Some _ _ _ _ _ Ho Hn). simpl.
      unfold setattr. simpl. rewrite Ho. unfold getattr. simpl.
      rewrite lookup_insert_eq. simpl. by rewrite lookup_insert_eq.
    + simpl. repeat split; try done.
      exists kind, g, dev. rewrite !lookup_insert_ne by done.
      repeat split; try done. right. by rewrite lookup_insert_eq.
  - exists w, o. split; [|split].
    + unfold GloVe_corenlp_client, bind.
      by rewrite (getattr_Some _ _ _ _ _ Ho Hn); simpl;
         rewrite (getattr_Some _ _ _ _ _ Ho Hn).
    + by rewrite insert_id.
    + repeat split; try done. exists kind, g, dev. eauto 10.
Qed.

(** The undecorated [tokenize]: exactly one request, for [text]. *)
Lemma tokenize_body_spec w self o text :
  w_heap w !! self = Some o -> cls o = GloVe -> glove_ok ext self (attrs o) ->
  exists w2 o1,
    GloVe_tokenize_body ext self text w =
      (tokens_of ext (ext_annotate ext (length (w_requests w)) text), w2) /\
    w_heap w2 = <[self := o1]> (w_heap w) /\
    cls o1 = GloVe /\ glove_ok ext self (attrs o1) /\
    w_cache w2 = w_cache w /\
    w_requests w2 = (self, text) :: w_requests w.
Proof.
  intros Ho Hc Hok.
  destruct (corenlp_client_spec w self o Ho Hc Hok)
    as (w1 & o1 & Hrun & Hh & Hc1 & Hok1 & Hca & Hrq).
  exists (set_requests ((self, text) :: w_requests w1) w1), o1.
  split; [|by rewrite <- Hrq].
  unfold GloVe_tokenize_body, bind. rewrite Hrun. simpl. rewrite Hrq.
  by destruct (ext_annotate ext (length (w_requests w)) text).
Qed.

(** ** The cache as a list *)

Lemma key_eqb_eq (a b : key) : key_eqb a b = true <-> a = b.
Proof. unfold key_eqb. by rewrite bool_decide_eq_true. Qed.

Lemma cache_get_None k c : cache_get k c = None <-> k ∉ c.*1.
Proof.
  induction c as [|[k' v] c IH]; simpl.
  - split; [intros _; apply not_elem_of_nil | done].
  - rewrite not_elem_of_cons. unfold key_eqb. case_bool_decide as Hk.
    + split; [done | by intros [? _]].
    + rewrite IH. tauto.
Qed.

Lemma cache_get_Some_elem k c v : cache_get k c = Some v -> (k, v) ∈ c.
Proof.
  induction c as [|[k' v'] c IH]; simpl; [done|].
  unfold key_eqb. case_bool_decide as Hk.
  - intros [= ->]. subst. apply list_elem_of_here.
  - intros Hget. apply list_elem_of_further. by apply IH.
Qed.

Lemma cache_get_is_Some k c : is_Some (cache_get k c) <-> k ∈ c.*1.
Proof.
  destruct (cache_get k c) eqn:E.
  - split; [intros _ | by eauto].
    apply cache_get_Some_elem in E.
    apply list_elem_of_fmap. by exists (k, p).
  - apply cache_get_None in E. split; [by intros [? ?] | done].
Qed.

Lemma cache_remove_keys k k' c :
  k' ∈ (cache_remove k c).*1 <-> k' ∈ c.*1 /\ k' <> k.
Proof.
  induction c as [|[k0 v] c IH]; simpl.
  - rewrite elem_of_nil. tauto.
  - unfold key_eqb. case_bool_decide as Hk; simpl;
      rewrite ?elem_of_cons, IH; intuition congruence.
Qed.

Lemma cache_remove_NoDup k c :
  NoDup (c.*1) -> NoDup ((cache_remove k c).*1).
Proof.
  induction c as [|[k0 v] c IH]; simpl; [done|].
  rewrite NoDup_cons. intros [Hn Hd].
  unfold key_eqb. case_bool_decide; subst; simpl; [by apply IH|].
  rewrite NoDup_cons. split; [|by apply IH].
  rewrite cache_remove_keys. tauto.
Qed.

Lemma cache_remove_length k c :
  (length (cache_remove k c) <= length c)%nat.
Proof.
  induction c as [|[k0 v] c IH]; simpl; [done|].
  destruct (key_eqb k k0); simpl; lia.
Qed.

Lemma cache_remove_length_hit k c v :
  cache_get k c = Some v -> (length (cache_remove k c) < length c)%nat.
Proof.
  induction c as [|[k0 v0] c IH]; simpl; [done|].
  destruct (key_eqb k k0); simpl.
  - intros _. pose proof (cache_remove_length k c). lia.
  - intros H. apply IH in H. lia.
Qed.

Lemma cache_get_remove_ne k k' c :
  k' <> k -> cache_get k' (cache_remove k c) = cache_get k' c.
Proof.
  intros Hne. induction c as [|[k0 v] c IH]; simpl; [done|].
  unfold key_eqb. repeat (case_bool_decide; subst; simpl); try done.
  - unfold key_eqb. by rewrite bool_decide_eq_true_2.
  - unfold key_eqb. by rewrite bool_decide_eq_false_2.
Qed.

Lemma removelast_keys (c : list (key * pyval)) :
  (removelast c).*1 = removelast (c.*1).
Proof.
  induction c as [|e c IH]; [done|].
  destruct c as [|e' c]; [done|].
  change (fst e :: (removelast (e' :: c)).*1 =
          fst e :: removelast ((e' :: c).*1)).
  by rewrite IH.
Qed.

Lemma removelast_elem {A} (x : A) (l : list A) : x ∈ removelast l -> x ∈ l.
Proof.
  induction l as [|a l IH]; [done|].
  destruct l as [|b l]; [by rewrite elem_of_nil|].
  change (x ∈ a :: removelast (b :: l) -> x ∈ a :: b :: l).
  rewrite !(elem_of_cons _ x a). tauto.
Qed.

Lemma removelast_NoDup {A} (l : list A) : NoDup l -> NoDup (removelast l).
Proof.
  induction l as [|a l IH]; [done|].
  destruct l as [|b l]; [intros _; by apply NoDup_nil|].
  change (NoDup (a :: b :: l) -> NoDup (a :: removelast (b :: l))).
  rewrite !(NoDup_cons a). intros [Hn Hd]. split; [|by apply IH].
  intros H. by apply Hn, removelast_elem.
Qed.

Lemma removelast_length {A} (l : list A) :
  length (removelast l) = Nat.pred (length l).
Proof.
  induction l as [|a l IH]; [done|].
  destruct l as [|b l]; [done|].
  change (S (length (removelast (b :: l))) = S (length l)).
  rewrite IH. done.
Qed.

(** ** The decorated tokenize *)

Lemma tokenize_hit w self text v :
  cache_get (self, text) (w_cache w) = Some v ->
  GloVe_tokenize ext self text w =
    (Ok v, set_cache (((self, text), v) :: cache_remove (self, text) (w_cache w)) w).
Proof. intros H. unfold GloVe_tokenize, lru_cache. by rewrite H. Qed.

Lemma tokenize_miss w self o text :
  w_heap w !! self = Some o -> cls o = GloVe -> glove_ok ext self (attrs o) ->
  cache_get (self, text) (w_cache w) = None ->
  exists w2 o1,
    w_heap w2 = <[self := o1]> (w_heap w) /\
    cls o1 = GloVe /\ glove_ok ext self (attrs o1) /\
    w_cache w2 = w_cache w /\
    w_requests w2 = (self, text) :: w_requests w /\
    GloVe_tokenize ext self text w =
      match tokens_of ext (ext_annotate ext (length (w_requests w)) text) with
      | Ok v => (Ok v, set_cache (cache_store (self, text) v (w_cache w)) w2)
      | Raise e => (Raise e, w2)
      end.
Proof.
  intros Ho Hc Hok Hmiss.
  destruct (tokenize_body_spec w self o text Ho Hc Hok)
    as (w2 & o1 & Hrun & Hh & Hc1 & Hok1 & Hca & Hrq).
  exists w2, o1. repeat (split; [done|]).
  unfold GloVe_tokenize, lru_cache. rewrite Hmiss, Hrun.
  destruct (tokens_of _ _) as [v|e]; [|done].
  rewrite Hca, Hmiss. unfold cache_store. by destruct (maxsize <=? _)%nat.
Qed.

Lemma cache_store_length k v c :
  (length c <= maxsize)%nat -> (length (cache_store k v c) <= maxsize)%nat.
Proof.
  intros H. unfold cache_store. destruct (Nat.leb_spec maxsize (length c)); simpl.
  - rewrite removelast_length. unfold maxsize in *. lia.
  - lia.
Qed.

Lemma cache_store_keys k v c k' :
  k' ∈ (cache_store k v c).*1 -> k' = k \/ k' ∈ c.*1.
Proof.
  unfold cache_store. destruct (maxsize <=? _)%nat; simpl;
    rewrite elem_of_cons; intros [->|H]; auto.
  right. rewrite removelast_keys in H. by apply removelast_elem.
Qed.

Lemma cache_store_NoDup k v c :
  k ∉ c.*1 -> NoDup c.*1 -> NoDup (cache_store k v c).*1.
Proof.
  intros Hk Hd. unfold cache_store. destruct (maxsize <=? _)%nat; simpl;
    apply NoDup_cons; split; try done.
  - rewrite removelast_keys. intros H. by apply Hk, removelast_elem.
  - rewrite removelast_keys. by apply removelast_NoDup.
Qed.

(** ** Preservation of the invariant *)

Lemma Inv_init : Inv ext init_world.
Proof.
  split; simpl.
  - intros l o. by rewrite lookup_empty.
  - unfold maxsize. lia.
  - by apply NoDup_nil.
  - intros k H. by apply elem_of_nil in H.
Qed.

(** One object is replaced by one of the same class that is in order; the
    cache keeps its bound and gains no key but some of [self]. *)
Lemma Inv_update w w' self o o1 :
  Inv ext w ->
  w_heap w !! self = Some o ->
  w_heap w' = <[self := o1]> (w_heap w) ->
  cls o1 = cls o -> obj_ok ext self o1 ->
  (length (w_cache w') <= maxsize)%nat ->
  NoDup (w_cache w').*1 ->
  (forall k, k ∈ (w_cache w').*1 ->
     k ∈ (w_cache w).*1 \/ (fst k = self /\ cls o = GloVe)) ->
  Inv ext w'.
Proof.
  intros [Hh Hs Hk Ho] Hself Hw' Hcls Hok Hlen Hnd Hkeys. split; try done.
  - intros l o'. rewrite Hw'. destruct (decide (self = l)) as [<-|Hne].
    + rewrite lookup_insert_eq. by intros [= <-].
    + rewrite lookup_insert_ne by done. apply Hh.
  - intros k Hin. unfold is_GloVe. rewrite Hw'.
    destruct (decide (self = fst k)) as [Heq|Hne].
    + exists o1. rewrite <- Heq, lookup_insert_eq. split; [done|]. rewrite Hcls.
      destruct (Hkeys k Hin) as [Hold|[_ ?]]; [|done].
      destruct (Ho k Hold) as (o2 & Ho2 & Hc2).
      rewrite <- Heq in Ho2. congruence.
    + rewrite lookup_insert_ne by done.
      destruct (Hkeys k Hin) as [Hold|[? _]]; [|done]. by apply Ho.
Qed.

(** A new object, in order, at a free address. *)
Lemma Inv_alloc w w' l o1 :
  Inv ext w ->
  w_heap w !! l = None ->
  w_heap w' = <[l := o1]> (w_heap w) ->
  obj_ok ext l o1 ->
  w_cache w' = w_cache w ->
  Inv ext w'.
Proof.
  intros [Hh Hs Hk Ho] Hfree Hw' Hok Hca. split; rewrite ?Hca; try done.
  - intros l' o'. rewrite Hw'. destruct (decide (l = l')) as [<-|Hne].
    + rewrite lookup_insert_eq. by intros [= <-].
    + rewrite lookup_insert_ne by done. apply Hh.
  - intros k Hin. destruct (Ho k Hin) as (o2 & Ho2 & Hc2).
    exists o2. split; [|done]. rewrite Hw'.
    rewrite lookup_insert_ne; [done|]. intros ->. congruence.
Qed.

Lemma Inv_pure {A} (m : M A) w : pure m -> Inv ext w -> Inv ext (snd (m w)).
Proof. intros H. by rewrite H. Qed.

Lemma to_Inv w self o dev :
  Inv ext w -> w_heap w !! self = Some o -> cls o <> SentencePiece ->
  Inv ext (snd (GloVe_to ext self dev w)).
Proof.
  intros HI Ho Hc. pose proof (inv_heap _ _ HI _ _ Ho) as Hok.
  unfold obj_ok in Hok. destruct (cls o) eqn:Hcls; try done.
  - destruct Hok as (kind & g & d & Hload & Hg & Hd & Hv & Hn).
    rewrite (to_spec _ _ _ _ _ _ Ho Hv).
    destruct (ext_torch_device ext dev) as [d'|e]; [simpl|exact HI].
    eapply (Inv_update w _ self o);
      [exact HI | exact Ho | reflexivity | reflexivity | | | |]; simpl.
    + unfold obj_ok. simpl. rewrite Hcls.
      exists kind, g, d'. rewrite lookup_insert_eq, !lookup_insert_ne by done.
      done.
    + apply (inv_cache_size _ _ HI).
    + apply (inv_cache_keys _ _ HI).
    + auto.
  - destruct Hok as (lang & dim & vs & b & d & Hload & Hb & Hd & Hv).
    rewrite (to_spec _ _ _ _ _ _ Ho Hv).
    destruct (ext_torch_device ext dev) as [d'|e]; [simpl|exact HI].
    eapply (Inv_update w _ self o);
      [exact HI | exact Ho | reflexivity | reflexivity | | | |]; simpl.
    + unfold obj_ok. simpl. rewrite Hcls.
      exists lang, dim, vs, b, d'.
      rewrite lookup_insert_eq, !lookup_insert_ne by done. done.
    + apply (inv_cache_size _ _ HI).
    + apply (inv_cache_keys _ _ HI).
    + auto.
Qed.

Lemma tokenize_Inv w self o text :
  Inv ext w -> w_heap w !! self = Some o -> cls o = GloVe ->
  Inv ext (snd (GloVe_tokenize ext self text w)).
Proof.
  intros HI Ho Hc. pose proof (inv_heap _ _ HI _ _ Ho) as Hok.
  unfold obj_ok in Hok. rewrite Hc in Hok.
  destruct (cache_get (self, text) (w_cache w)) as [v|] eqn:Hget.
  - rewrite (tokenize_hit _ _ _ _ Hget). simpl.
    eapply (Inv_update w _ self o o);
      [exact HI | exact Ho | | reflexivity | | | |]; simpl.
    + by rewrite insert_id.
    + unfold obj_ok. by rewrite Hc.
    + pose proof (cache_remove_length_hit _ _ _ Hget).
      pose proof (inv_cache_size _ _ HI). lia.
    + apply NoDup_cons. split.
      * rewrite cache_remove_keys. tauto.
      * apply cache_remove_NoDup, (inv_cache_keys _ _ HI).
    + intros k. rewrite elem_of_cons, cache_remove_keys.
      intros [->|[? _]]; auto.
  - destruct (tokenize_miss w self o text Ho Hc Hok Hget)
      as (w2 & o1 & Hh & Hc1 & Hok1 & Hca & Hrq & ->).
    apply cache_get_None in Hget.
    destruct (tokens_of _ _) as [v|e]; simpl.
    + eapply (Inv_update w _ self o o1);
        [exact HI | exact Ho | exact Hh | congruence | | | |]; simpl.
      * unfold obj_ok. by rewrite Hc1.
      * apply cache_store_length, (inv_cache_size _ _ HI).
      * apply cache_store_NoDup; [done|]. apply (inv_cache_keys _ _ HI).
      * intros k Hin. apply cache_store_keys in Hin as [->|?]; auto.
    + eapply (Inv_update w _ self o o1);
        [exact HI | exact Ho | exact Hh | congruence | | | |];
        rewrite ?Hca.
      * unfold obj_ok. by rewrite Hc1.
      * apply (inv_cache_size _ _ HI).
      * apply (inv_cache_keys _ _ HI).
      * auto.
Qed.

Lemma sentencepiece_no_vectors : sentencepiece_attrs !! "vectors" = None.
Proof. done. Qed.

Lemma sentencepiece_no_bpemb : sentencepiece_attrs !! "bpemb" = None.
Proof. done. Qed.

Lemma invoke_Inv w self m : Inv ext w -> Inv ext (snd (invoke ext self m w)).
Proof.
  intros HI. unfold invoke.
  destruct (w_heap w !! self) as [o|] eqn:Ho; [|done].
  pose proof (inv_heap _ _ HI _ _ Ho) as Hok. unfold obj_ok in Hok.
  destruct (cls o) eqn:Hc; [done| | |].
  - destruct m; simpl; try done; try solve [apply Inv_pure; [pure_steps|done]].
    + by apply (tokenize_Inv w self o).
    + apply (to_Inv w self o); [done..|]. by rewrite Hc.
  - destruct m; simpl; try done; try solve [apply Inv_pure; [pure_steps|done]].
    rewrite BPEmb_to_eq. apply (to_Inv w self o); [done..|]. by rewrite Hc.
  - destruct m; simpl; try done; try solve [apply Inv_pure; [pure_steps|done]].
    rewrite SentencePiece_to_eq, (to_unset _ _ _ _ Ho); [done|].
    rewrite Hok. apply sentencepiece_no_vectors.
Qed.

(** ** The constructors *)

Lemma fresh_free w : w_heap w !! fresh (dom (w_heap w)) = None.
Proof. apply not_elem_of_dom, is_fresh. Qed.

Lemma setattr_with_obj w l o name v :
  setattr l name v (with_obj w l o) =
    (Ok tt, with_obj w l {| cls := cls o; attrs := <[name := v]> (attrs o) |}).
Proof.
  unfold setattr, with_obj. simpl. rewrite lookup_insert_eq.
  unfold set_heap. simpl. by rewrite insert_insert_eq.
Qed.

Lemma getattr_with_obj w l o name v :
  attrs o !! name = Some v ->
  getattr l name (with_obj w l o) = (Ok v, with_obj w l o).
Proof.
  intros H. unfold getattr, with_obj. simpl. by rewrite lookup_insert_eq, H.
Qed.

Ltac map_lookup :=
  simpl; repeat (rewrite lookup_insert_eq || rewrite lookup_insert_ne by done);
  reflexivity.

Ltac init_step :=
  first [ rewrite setattr_with_obj
        | erewrite getattr_with_obj by map_lookup ];
  simpl.

Lemma new_failed w l o : w_heap w !! l = None ->
  set_heap (delete l (w_heap (with_obj w l o))) (with_obj w l o) = w.
Proof.
  intros H. unfold with_obj, set_heap. simpl.
  rewrite delete_insert_id by done. by destruct w.
Qed.

Lemma new_GloVe_spec w kind :
  new ext (New_GloVe kind) w =
    match ext_load_glove ext kind with
    | Ok g =>
        (Ok (VObj (fresh (dom (w_heap w)))),
         with_obj w (fresh (dom (w_heap w)))
           {| cls := GloVe; attrs := GloVe_attrs g |})
    | Raise e => (Raise e, w)
    end.
Proof.
  unfold new, init, GloVe_init. simpl.
  set (l := fresh (dom (w_heap w))).
  change (set_heap (<[l := ?o]> (w_heap w)) w) with (with_obj w l o).
  unfold bind at 1. unfold lift at 1.
  destruct (ext_load_glove ext kind) as [g|e].
  - unfold bind. repeat init_step. done.
  - apply f_equal, new_failed, fresh_free.
Qed.

Lemma new_BPEmb_spec w dim vocab_size lang :
  new ext (New_BPEmb dim vocab_size lang) w =
    match ext_load_bpemb ext lang dim vocab_size with
    | Ok b =>
        (Ok (VObj (fresh (dom (w_heap w)))),
         with_obj w (fresh (dom (w_heap w)))
           {| cls := BPEmb; attrs := BPEmb_attrs dim b |})
    | Raise e => (Raise e, w)
    end.
Proof.
  unfold new, init, BPEmb_init. simpl.
  set (l := fresh (dom (w_heap w))).
  change (set_heap (<[l := ?o]> (w_heap w)) w) with (with_obj w l o).
  unfold bind at 1. unfold lift at 1.
  destruct (ext_load_bpemb ext lang dim vocab_size) as [b|e].
  - unfold bind. repeat init_step. done.
  - apply f_equal, new_failed, fresh_free.
Qed.

Lemma new_SentencePiece_spec w save_prefix :
  new ext (New_SentencePiece save_prefix) w =
    (Ok (VObj (fresh (dom (w_heap w)))),
     with_obj w (fresh (dom (w_heap w)))
       {| cls := SentencePiece; attrs := sentencepiece_attrs |}).
Proof.
  unfold new, init, SentencePiece_init. simpl.
  set (l := fresh (dom (w_heap w))).
  change (set_heap (<[l := ?o]> (w_heap w)) w) with (with_obj w l o).
  unfold bind. by rewrite !setattr_with_obj.
Qed.

Lemma GloVe_attrs_ok l kind g :
  ext_load_glove ext kind = Ok g -> glove_ok ext l (GloVe_attrs g).
Proof. intros H. exists kind, g, "cpu". by repeat split; auto. Qed.

Lemma BPEmb_attrs_ok lang dim vocab_size b :
  ext_load_bpemb ext lang dim vocab_size = Ok b ->
  bpemb_ok ext (BPEmb_attrs dim b).
Proof. intros H. by exists lang, dim, vocab_size, b, "cpu". Qed.

Lemma new_Inv w k : Inv ext w -> Inv ext (snd (new ext k w)).
Proof.
  intros HI. destruct k as [kind|dim vs lang|prefix].
  - rewrite new_GloVe_spec.
    destruct (ext_load_glove ext kind) as [g|e] eqn:Hload; [|done].
    eapply Inv_alloc; [done | apply fresh_free | reflexivity | | done].
    by apply (GloVe_attrs_ok _ kind).
  - rewrite new_BPEmb_spec.
    destruct (ext_load_bpemb ext lang dim vs) as [b|e] eqn:Hload; [|done].
    eapply Inv_alloc; [done | apply fresh_free | reflexivity | | done].
    by apply (BPEmb_attrs_ok lang dim vs).
  - rewrite new_SentencePiece_spec.
    eapply Inv_alloc; [done | apply fresh_free | reflexivity | done | done].
Qed.

Lemma exec_Inv w c : Inv ext w -> Inv ext (snd (exec ext c w)).
Proof. destruct c; [apply new_Inv | apply invoke_Inv]. Qed.

Lemma reachable_Inv w : reachable ext w -> Inv ext w.
Proof. induction 1; [apply Inv_init | by apply exec_Inv]. Qed.

Lemma run_Inv cs w : Inv ext w -> Inv ext (run ext cs w).
Proof.
  revert w. induction cs as [|c cs IH]; intros w HI; [done|].
  apply IH, exec_Inv, HI.
Qed.

Lemma reachable_run cs w : reachable ext w -> reachable ext (run ext cs w).
Proof.
  revert w. induction cs as [|c cs IH]; intros w Hr; [done|].
  apply IH. by constructor.
Qed.

(** ** Objects stay, and stay in their class *)

Lemma keeps_insert (h : gmap loc instance) self os o1 l o :
  h !! self = Some os -> cls o1 = cls os -> h !! l = Some o ->
  exists o', <[self := o1]> h !! l = Some o' /\ cls o' = cls o.
Proof.
  intros Hs Hc Hl. destruct (decide (self = l)) as [->|Hne].
  - exists o1. rewrite lookup_insert_eq. split; [done|]. congruence.
  - exists o. by rewrite lookup_insert_ne.
Qed.

Lemma to_keeps w self dev l o :
  w_heap w !! l = Some o ->
  exists o', w_heap (snd (GloVe_to ext self dev w)) !! l = Some o' /\ cls o' = cls o.
Proof.
  intros Hl. unfold GloVe_to, bind, getattr.
  destruct (w_heap w !! self) as [os|] eqn:Hs; [|by exists o].
  destruct (attrs os !! "vectors") as [v|]; [|by exists o]. simpl.
  destruct (tensor_to ext v dev); [|by exists o]. simpl.
  unfold setattr. rewrite Hs. simpl. by apply (keeps_insert _ _ os).
Qed.

Lemma tokenize_keeps w self os text l o :
  w_heap w !! self = Some os -> cls os = GloVe ->
  glove_ok ext self (attrs os) ->
  w_heap w !! l = Some o ->
  exists o', w_heap (snd (GloVe_tokenize ext self text w)) !! l = Some o' /\
             cls o' = cls o.
Proof.
  intros Hs Hc Hok Hl.
  destruct (cache_get (self, text) (w_cache w)) as [v|] eqn:Hget.
  - rewrite (tokenize_hit _ _ _ _ Hget). by exists o.
  - destruct (tokenize_miss w self os text Hs Hc Hok Hget)
      as (w2 & o1 & Hh & Hc1 & Hok1 & Hca & Hrq & ->).
    destruct (tokens_of _ _); simpl; rewrite Hh;
      apply (keeps_insert _ _ os); congruence.
Qed.

(** An object that is there stays there, in its class, whatever is called. *)
Lemma exec_keeps w c l o :
  Inv ext w -> w_heap w !! l = Some o ->
  exists o', w_heap (snd (exec ext c w)) !! l = Some o' /\ cls o' = cls o.
Proof.
  intros HI Hl. destruct c as [k|self m]; simpl.
  - assert (fresh (dom (w_heap w)) <> l) as Hne
      by (intros <-; by rewrite fresh_free in Hl).
    destruct k as [kind|dim vs lang|prefix].
    + rewrite new_GloVe_spec. destruct (ext_load_glove ext kind);
        exists o; simpl; by rewrite ?lookup_insert_ne.
    + rewrite new_BPEmb_spec. destruct (ext_load_bpemb ext lang dim vs);
        exists o; simpl; by rewrite ?lookup_insert_ne.
    + rewrite new_SentencePiece_spec. exists o. simpl.
      by rewrite lookup_insert_ne.
  - unfold invoke. destruct (w_heap w !! self) as [os|] eqn:Hs; [|by exists o].
    pose proof (inv_heap _ _ HI _ _ Hs) as Hok. unfold obj_ok in Hok.
    destruct (cls os) eqn:Hc; [done| | |];
      destruct m; simpl;
      try (by exists o);
      try (by apply to_keeps);
      try (by apply (tokenize_keeps _ _ os));
      try (rewrite (pure_BPEmb_lookup self token w); by exists o);
      try (rewrite (pure_GloVe_lookup self token w); by exists o);
      try (rewrite (pure_GloVe_contains self token w); by exists o);
      try (rewrite (pure_BPEmb_contains self token w); by exists o);
      try (rewrite (pure_BPEmb_tokenize self text w); by exists o);
      try (rewrite (pure_BPEmb_untokenize self tokens w); by exists o);
      try (rewrite (pure_SentencePiece_tokenize self text w); by exists o);
      try (rewrite (pure_SentencePiece_untokenize self tokens w); by exists o);
      try (rewrite (pure_SentencePiece_lookup self token w); by exists o);
      try (rewrite (pure_SentencePiece_contains self token w); by exists o).
Qed.

Lemma run_keeps cs w l o :
  Inv ext w -> w_heap w !! l = Some o ->
  exists o', w_heap (run ext cs w) !! l = Some o' /\ cls o' = cls o.
Proof.
  revert w o. induction cs as [|c cs IH]; intros w o HI Hl; [by exists o|].
  destruct (exec_keeps w c l o HI Hl) as (o1 & Hl1 & Hc1).
  destruct (IH _ o1 (exec_Inv w c HI) Hl1) as (o2 & Hl2 & Hc2).
  exists o2. split; [done|]. congruence.
Qed.

(** ** Evaluating a body on a known object *)

Lemma bind_getattr {B} w self o name v (k : pyval -> M B) :
  w_heap w !! self = Some o -> attrs o !! name = Some v ->
  bind (getattr self name) k w = k v w.
Proof. intros Ho Hv. unfold bind. by rewrite (getattr_Some _ _ _ _ _ Ho Hv). Qed.

Lemma bind_getattr_unset {B} w self o name (k : pyval -> M B) :
  w_heap w !! self = Some o -> attrs o !! name = None ->
  bind (getattr self name) k w = (Raise (AttributeError name), w).
Proof. intros Ho Hv. unfold bind. by rewrite (getattr_None _ _ _ _ Ho Hv). Qed.

Lemma getitem_row dev rows i :
  (0 <= i < Z.of_nat (length rows))%Z ->
  exists row, rows !! Z.to_nat i = Some row /\
              getitem (VTensor dev rows) (VInt i) = Ok (VVector dev row).
Proof.
  intros Hi. unfold getitem.
  destruct (Z.ltb_spec i 0) as [?|_]; [lia|].
  destruct (Z.leb_spec 0 i) as [_|?]; [|lia].
  destruct (Z.ltb_spec i (Z.of_nat (length rows))) as [_|?]; [|lia]. simpl.
  destruct (lookup_lt_is_Some_2 rows (Z.to_nat i)) as [row Hrow]; [lia|].
  exists row. by rewrite Hrow.
Qed.

(** Whatever [t[i]] returns is a row of the table. *)
Lemma getitem_Ok dev rows i v :
  getitem (VTensor dev rows) i = Ok v ->
  exists row, row ∈ rows /\ v = VVector dev row.
Proof.
  unfold getitem. destruct i; try done.
  destruct (_ && _); [|done].
  destruct (rows !! _) as [row|] eqn:Hrow; [|done].
  intros [= <-]. exists row. split; [|done]. by eapply list_elem_of_lookup_2.
Qed.

(** *** GloVe *)

Lemma GloVe_lookup_run w self o g dev token :
  w_heap w !! self = Some o ->
  attrs o !! "glove" = Some (VGloVe g) ->
  attrs o !! "vectors" = Some (VTensor dev (tt_vectors g)) ->
  GloVe_lookup self token w =
    (match tt_stoi g !! token with
     | Some i => getitem (VTensor dev (tt_vectors g)) (VInt i)
     | None => Ok VNone
     end, w).
Proof.
  intros Ho Hg Hv. unfold GloVe_lookup.
  rewrite (bind_getattr _ _ _ _ _ _ Ho Hg). unfold bind at 1 2, lift. simpl.
  destruct (tt_stoi g !! token) as [i|]; simpl; [|done].
  by rewrite (bind_getattr _ _ _ _ _ _ Ho Hv).
Qed.

Lemma GloVe_contains_run w self o g token :
  w_heap w !! self = Some o ->
  attrs o !! "glove" = Some (VGloVe g) ->
  GloVe_contains self token w =
    (Ok (VBool (bool_decide (is_Some (tt_stoi g !! token)))), w).
Proof.
  intros Ho Hg. unfold GloVe_contains.
  by rewrite (bind_getattr _ _ _ _ _ _ Ho Hg).
Qed.

(** *** BPEmb *)

Lemma BPEmb_lookup_run w self o b dev token :
  w_heap w !! self = Some o ->
  attrs o !! "bpemb" = Some (VBPEmb b) ->
  attrs o !! "vectors" = Some (VTensor dev (bp_vectors b)) ->
  BPEmb_lookup self token w =
    (if (PieceToId (bp_spm b) token =? unk_id (bp_spm b))%Z then Ok VNone
     else getitem (VTensor dev (bp_vectors b)) (VInt (PieceToId (bp_spm b) token)),
     w).
Proof.
  intros Ho Hb Hv. unfold BPEmb_lookup.
  rewrite (bind_getattr _ _ _ _ _ _ Ho Hb). unfold bind at 1 2, lift. simpl.
  rewrite (bind_getattr _ _ _ _ _ _ Ho Hb). unfold bind at 1 2, lift. simpl.
  destruct (_ =? _)%Z; [done|].
  by rewrite (bind_getattr _ _ _ _ _ _ Ho Hv).
Qed.

Lemma contains_via_lookup (m : M pyval) w :
  pure m ->
  bind m (fun r => ret (VBool (negb (is_None r)))) w = (is_not_None (fst (m w)), w).
Proof.
  intros Hp. rewrite (bind_pure_fst _ _ _ Hp).
  by destruct (fst (m w)).
Qed.

(** *** SentencePiece *)

Lemma SentencePiece_lookup_run w self o token :
  w_heap w !! self = Some o -> attrs o = sentencepiece_attrs ->
  SentencePiece_lookup self token w = (Raise (AttributeError "bpemb"), w).
Proof.
  intros Ho Ha. unfold SentencePiece_lookup.
  apply (bind_getattr_unset _ _ _ _ _ Ho). by rewrite Ha.
Qed.

Lemma SentencePiece_untokenize_run w self o tokens :
  w_heap w !! self = Some o -> attrs o = sentencepiece_attrs ->
  SentencePiece_untokenize self tokens w = (Raise (AttributeError "bpemb"), w).
Proof.
  intros Ho Ha. unfold SentencePiece_untokenize.
  apply (bind_getattr_unset _ _ _ _ _ Ho). by rewrite Ha.
Qed.

Lemma SentencePiece_tokenize_run w self o text :
  w_heap w !! self = Some o -> attrs o = sentencepiece_attrs ->
  SentencePiece_tokenize self text w = (Raise (AttributeError "encode"), w).
Proof.
  intros Ho Ha. unfold SentencePiece_tokenize.
  rewrite (bind_getattr _ _ _ "spm" VNone _ Ho); [done|]. by rewrite Ha.
Qed.

(** ** The interface, on every reachable instance *)

(** An instance of a reachable state is of one of the three concrete
    classes. *)
Lemma reachable_obj w self o :
  reachable ext w -> w_heap w !! self = Some o -> obj_ok ext self o.
Proof. intros Hr Ho. by apply (inv_heap _ _ (reachable_Inv w Hr)). Qed.

(** [contains(t)] is the expression [lookup(t) is not None], exceptions
    included, and neither call changes the state. *)
Lemma contains_is_lookup_is_not_None w self o token :
  glove_index_ok ext -> reachable ext w -> w_heap w !! self = Some o ->
  invoke ext self (Contains token) w =
    (is_not_None (fst (invoke ext self (Lookup token) w)), w) /\
  snd (invoke ext self (Lookup token) w) = w.
Proof.
  intros Hidx Hr Ho. pose proof (reachable_obj w self o Hr Ho) as Hok.
  unfold invoke. rewrite Ho. unfold obj_ok in Hok.
  destruct (cls o) eqn:Hc; [done| | |]; simpl.
  - destruct Hok as (kind & g & dev & Hload & Hg & Hd & Hv & Hn).
    rewrite (GloVe_contains_run _ _ _ _ _ Ho Hg).
    rewrite (GloVe_lookup_run _ _ _ _ _ _ Ho Hg Hv). simpl. split; [|done].
    destruct (tt_stoi g !! token) as [i|] eqn:Hi.
    + destruct (getitem_row dev (tt_vectors g) i) as (row & _ & ->); [|done].
      by apply (Hidx kind g token).
    + done.
  - split; [|apply pure_BPEmb_lookup].
    apply (contains_via_lookup (BPEmb_lookup self token)), pure_BPEmb_lookup.
  - split; [|apply pure_SentencePiece_lookup].
    apply (contains_via_lookup (SentencePiece_lookup self token)),
      pure_SentencePiece_lookup.
Qed.

(** C1. In every reachable state and for every instance (of GloVe, BPEmb or
    SentencePiece) and token: [contains(t)] returns [True] exactly when
    [lookup(t)] returns a value that is not [None], and returns [False]
    exactly when [lookup(t)] returns [None].  ([contains] raises exactly
    when [lookup] does, which is what happens on a SentencePiece instance.)
    The GloVe class answers [contains] from the vocabulary index alone; it
    agrees with [lookup] because every index of a torchtext vocabulary is a
    row of its table. *)
Theorem contains_iff_lookup_not_None w self o token :
  glove_index_ok ext -> reachable ext w -> w_heap w !! self = Some o ->
  (fst (exec ext (Invoke self (Contains token)) w) = Ok (VBool true) <->
   exists v, fst (exec ext (Invoke self (Lookup token)) w) = Ok v /\ v <> VNone) /\
  (fst (exec ext (Invoke self (Contains token)) w) = Ok (VBool false) <->
   fst (exec ext (Invoke self (Lookup token)) w) = Ok VNone).
Proof.
  intros Hidx Hr Ho. simpl.
  destruct (contains_is_lookup_is_not_None w self o token Hidx Hr Ho) as [-> _].
  simpl. destruct (fst (invoke ext self (Lookup token) w)) as [v|e]; simpl.
  - split; split.
    + intros [= Hv]. exists v. split; [done|]. by intros ->.
    + intros (v' & [= <-] & Hv). by destruct v.
    + intros [= Hv]. by destruct v.
    + by intros [= ->].
  - split; split; try done. by intros (v & ? & _).
Qed.

(** C2. In every reachable state, whenever [lookup(t)] returns something
    other than [None], it is a vector whose length is the instance's
    [dim], given that the tables the libraries hand out have rows of the
    width they were loaded for. *)
Theorem lookup_vector_has_length_dim w self o token v :
  width_ok ext -> reachable ext w -> w_heap w !! self = Some o ->
  fst (exec ext (Invoke self (Lookup token)) w) = Ok v -> v <> VNone ->
  exists dev data,
    v = VVector dev data /\
    fst (getattr self "dim" w) = Ok (VInt (Z.of_nat (length data))).
Proof.
  intros [Hwg Hwb] Hr Ho. pose proof (reachable_obj w self o Hr Ho) as Hok.
  simpl. unfold invoke. rewrite Ho. unfold obj_ok in Hok.
  destruct (cls o) eqn:Hc; [done| | |]; simpl.
  - destruct Hok as (kind & g & dev & Hload & Hg & Hd & Hv & Hn).
    rewrite (GloVe_lookup_run _ _ _ _ _ _ Ho Hg Hv). simpl.
    destruct (tt_stoi g !! token) as [i|]; [|by intros [= <-]].
    intros Hget _. apply getitem_Ok in Hget as (row & Hrow & ->).
    exists dev, row. split; [done|].
    rewrite (getattr_Some _ _ _ _ _ Ho Hd). simpl. do 2 f_equal.
    specialize (Hwg kind g Hload). rewrite Forall_forall in Hwg.
    symmetry. by apply Hwg.
  - destruct Hok as (lang & dim & vs & b & dev & Hload & Hb & Hd & Hv).
    rewrite (BPEmb_lookup_run _ _ _ _ _ _ Ho Hb Hv). simpl.
    destruct (_ =? _)%Z; [by intros [= <-]|].
    intros Hget _. apply getitem_Ok in Hget as (row & Hrow & ->).
    exists dev, row. split; [done|].
    rewrite (getattr_Some _ _ _ _ _ Ho Hd). simpl. do 2 f_equal.
    specialize (Hwb lang dim vs b Hload). rewrite Forall_forall in Hwb.
    symmetry. by apply Hwb.
  - by rewrite (SentencePiece_lookup_run _ _ _ _ Ho Hok).
Qed.

(** A miss is not an error for GloVe and BPEmb: a token that is not a key
    of the vocabulary index, or a piece whose id is the reserved unknown
    id, gives [None]. *)
Lemma lookup_miss_GloVe_BPEmb w self o token :
  reachable ext w -> w_heap w !! self = Some o ->
  (forall g, cls o = GloVe -> attrs o !! "glove" = Some (VGloVe g) ->
     tt_stoi g !! token = None ->
     exec ext (Invoke self (Lookup token)) w = (Ok VNone, w)) /\
  (forall b, cls o = BPEmb -> attrs o !! "bpemb" = Some (VBPEmb b) ->
     PieceToId (bp_spm b) token = unk_id (bp_spm b) ->
     exec ext (Invoke self (Lookup token)) w = (Ok VNone, w)).
Proof.
  intros Hr Ho. pose proof (reachable_obj w self o Hr Ho) as Hok.
  unfold obj_ok in Hok. simpl. unfold invoke. rewrite Ho.
  split; intros x Hc Hx Hmiss; rewrite Hc in *; simpl.
  - destruct Hok as (kind & g & dev & Hload & Hg & Hd & Hv & Hn).
    assert (x = g) as -> by congruence.
    by rewrite (GloVe_lookup_run _ _ _ _ _ _ Ho Hg Hv), Hmiss.
  - destruct Hok as (lang & dim & vs & b & dev & Hload & Hb & Hd & Hv).
    assert (x = b) as -> by congruence.
    by rewrite (BPEmb_lookup_run _ _ _ _ _ _ Ho Hb Hv), Hmiss, Z.eqb_refl.
Qed.

(** C4. [lookup] of a SentencePiece instance raises [AttributeError]
    instead of returning [None]: the instance has no attribute [bpemb]. *)
Theorem SentencePiece_lookup_raises :
  outcomes ext [New (New_SentencePiece "model"); Invoke 1 (Lookup "hello")]
    init_world =
  [Ok (VObj 1); Raise (AttributeError "bpemb")].
Proof. reflexivity. Qed.

(** C3. [tokenize] of the empty string on a SentencePiece instance raises
    [AttributeError] instead of returning an empty list: [self.spm] is
    [None]. *)
Theorem SentencePiece_tokenize_empty_raises :
  outcomes ext [New (New_SentencePiece "model"); Invoke 1 (Tokenize "")]
    init_world =
  [Ok (VObj 1); Raise (AttributeError "encode")].
Proof. reflexivity. Qed.

(** The subword embedder hands the empty string to the model's own
    [encode]. *)
Lemma BPEmb_tokenize_run w self o b text :
  w_heap w !! self = Some o -> cls o = BPEmb ->
  attrs o !! "bpemb" = Some (VBPEmb b) ->
  exec ext (Invoke self (Tokenize text)) w = (Ok (VStrList (bp_encode b text)), w).
Proof.
  intros Ho Hc Hb. simpl. unfold invoke. rewrite Ho, Hc. simpl.
  unfold BPEmb_tokenize. by rewrite (bind_getattr _ _ _ _ _ _ Ho Hb).
Qed.

(** C5. [requires_training] is [False] in each of the three classes,
    whatever the state; on an instance of a reachable state it is [False]
    now and after any further sequence of calls. *)
Theorem requires_training_always_false w self o cs :
  reachable ext w -> w_heap w !! self = Some o ->
  (forall l w', GloVe_requires_training l w' = (Ok (VBool false), w') /\
                BPEmb_requires_training l w' = (Ok (VBool false), w') /\
                SentencePiece_requires_training l w' = (Ok (VBool false), w')) /\
  exec ext (Invoke self RequiresTraining) w = (Ok (VBool false), w) /\
  exec ext (Invoke self RequiresTraining) (run ext cs w) =
    (Ok (VBool false), run ext cs w).
Proof.
  intros Hr Ho. split; [done|].
  assert (forall w1 o1, reachable ext w1 -> w_heap w1 !! self = Some o1 ->
            exec ext (Invoke self RequiresTraining) w1 = (Ok (VBool false), w1))
    as Hfalse.
  { intros w1 o1 Hr1 Ho1. pose proof (reachable_obj w1 self o1 Hr1 Ho1) as Hok.
    simpl. unfold invoke. rewrite Ho1. unfold obj_ok in Hok.
    by destruct (cls o1). }
  split; [by apply (Hfalse w o)|].
  destruct (run_keeps cs w self o (reachable_Inv w Hr) Ho) as (o' & Ho' & _).
  apply (Hfalse _ o'); [|done]. by apply reachable_run.
Qed.

(** C7. In every reachable state a SentencePiece instance has neither the
    attribute [bpemb] nor the attribute [vectors], the two that [lookup]
    and [untokenize] read: no call assigns them.  So [lookup] and
    [untokenize] raise [AttributeError] on every argument. *)
Theorem SentencePiece_lookup_untokenize_always_raise w self o token tokens :
  reachable ext w -> w_heap w !! self = Some o -> cls o = SentencePiece ->
  attrs o !! "bpemb" = None /\ attrs o !! "vectors" = None /\
  exec ext (Invoke self (Lookup token)) w = (Raise (AttributeError "bpemb"), w) /\
  exec ext (Invoke self (Untokenize tokens)) w =
    (Raise (AttributeError "bpemb"), w).
Proof.
  intros Hr Ho Hc. pose proof (reachable_obj w self o Hr Ho) as Hok.
  unfold obj_ok in Hok. rewrite Hc in Hok.
  split; [by rewrite Hok|]. split; [by rewrite Hok|].
  simpl. unfold invoke. rewrite Ho, Hc. simpl.
  by rewrite (SentencePiece_lookup_run _ _ _ _ Ho Hok),
             (SentencePiece_untokenize_run _ _ _ _ Ho Hok).
Qed.

(** C9. The constructor of SentencePiece does not look at [save_prefix]:
    two values give the same state, in which the new instance has an empty
    [training_sentences] and [spm = None] and nothing else; and any
    sequence of calls from there on has the same results and ends in the
    same state. *)
Theorem SentencePiece_ignores_save_prefix p1 p2 w cs :
  exec ext (New (New_SentencePiece p1)) w = exec ext (New (New_SentencePiece p2)) w /\
  snd (exec ext (New (New_SentencePiece p1)) w) =
    with_obj w (fresh (dom (w_heap w)))
      {| cls := SentencePiece; attrs := sentencepiece_attrs |} /\
  sentencepiece_attrs !! "training_sentences" = Some (VStrList []) /\
  sentencepiece_attrs !! "spm" = Some VNone /\
  dom sentencepiece_attrs = {["training_sentences"; "spm"]} /\
  outcomes ext cs (snd (exec ext (New (New_SentencePiece p1)) w)) =
    outcomes ext cs (snd (exec ext (New (New_SentencePiece p2)) w)) /\
  run ext cs (snd (exec ext (New (New_SentencePiece p1)) w)) =
    run ext cs (snd (exec ext (New (New_SentencePiece p2)) w)).
Proof.
  split; [done|]. split; [by simpl; rewrite new_SentencePiece_spec|].
  split; [done|]. split; [done|]. split; [|done].
  unfold sentencepiece_attrs. rewrite !dom_insert_L, dom_empty_L. set_solver.
Qed.

(** C10. No class overrides [add_sentence] or [finalize]; on every instance
    of a reachable state both return [None] and leave the whole state as
    it is; and the [training_sentences] of a SentencePiece instance is the
    empty list in every reachable state. *)
Theorem add_sentence_finalize_change_nothing w self o sentence :
  reachable ext w -> w_heap w !! self = Some o ->
  (forall c s, c <> Embedder ->
     own_method ext c (AddSentence s) = None /\ own_method ext c Finalize = None) /\
  exec ext (Invoke self (AddSentence sentence)) w = (Ok VNone, w) /\
  exec ext (Invoke self Finalize) w = (Ok VNone, w) /\
  (cls o = SentencePiece ->
   attrs o !! "training_sentences" = Some (VStrList [])).
Proof.
  intros Hr Ho. pose proof (reachable_obj w self o Hr Ho) as Hok.
  unfold obj_ok in Hok.
  split; [by intros []|].
  simpl. unfold invoke. rewrite Ho.
  destruct (cls o) eqn:Hc; [done|..]; repeat split; try done.
  intros _. by rewrite Hok.
Qed.

(** ** What a call can do to the cache *)

(** A method call leaves the state alone, or is a [to], or is the decorated
    [tokenize] of a GloVe instance. *)
Lemma invoke_cases w self m :
  Inv ext w ->
  snd (invoke ext self m w) = w \/
  (exists dev, invoke ext self m w = GloVe_to ext self dev w) \/
  (exists text o, m = Tokenize text /\ w_heap w !! self = Some o /\
                  cls o = GloVe /\ glove_ok ext self (attrs o) /\
                  invoke ext self m w = GloVe_tokenize ext self text w).
Proof.
  intros HI. unfold invoke.
  destruct (w_heap w !! self) as [o|] eqn:Ho; [|by left].
  pose proof (inv_heap _ _ HI _ _ Ho) as Hok. unfold obj_ok in Hok.
  destruct (cls o) eqn:Hc; [done|..]; destruct m; simpl;
    try (by left);
    try (by right; left; eexists);
    try (left; by first
      [ apply pure_GloVe_lookup | apply pure_GloVe_contains
      | apply pure_BPEmb_tokenize | apply pure_BPEmb_untokenize
      | apply pure_BPEmb_lookup | apply pure_BPEmb_contains
      | apply pure_SentencePiece_tokenize | apply pure_SentencePiece_untokenize
      | apply pure_SentencePiece_lookup | apply pure_SentencePiece_contains ]).
  right; right. by exists text, o.
Qed.

Lemma to_frame w self dev :
  w_cache (snd (GloVe_to ext self dev w)) = w_cache w /\
  w_requests (snd (GloVe_to ext self dev w)) = w_requests w.
Proof.
  unfold GloVe_to, bind, getattr.
  destruct (w_heap w !! self) as [os|] eqn:Hs; [|done].
  destruct (attrs os !! "vectors") as [v|]; [|done]. simpl.
  destruct (tensor_to ext v dev); [|done]. simpl.
  unfold setattr. by rewrite Hs.
Qed.

Lemma new_frame w k :
  w_cache (snd (new ext k w)) = w_cache w /\
  w_requests (snd (new ext k w)) = w_requests w.
Proof.
  destruct k as [kind|dim vs lang|prefix].
  - rewrite new_GloVe_spec. by destruct (ext_load_glove ext kind).
  - rewrite new_BPEmb_spec. by destruct (ext_load_bpemb ext lang dim vs).
  - by rewrite new_SentencePiece_spec.
Qed.

Lemma cache_get_removelast k c :
  is_Some (cache_get k (removelast c)) ->
  cache_get k (removelast c) = cache_get k c.
Proof.
  induction c as [|[k0 v0] c IH]; [done|].
  destruct c as [|e c]; [by intros [? ?]|].
  change (is_Some (cache_get k ((k0, v0) :: removelast (e :: c))) ->
          cache_get k ((k0, v0) :: removelast (e :: c)) =
          cache_get k ((k0, v0) :: e :: c)).
  simpl. destruct (key_eqb k k0); [done|]. apply IH.
Qed.

Lemma requests_for_cons_ne k k' w r :
  k' <> k -> w_requests r = k' :: w_requests w ->
  requests_for k r = requests_for k w.
Proof.
  intros Hne Hr. unfold requests_for. rewrite Hr.
  by rewrite filter_cons_False.
Qed.

(** A cached key belongs to a GloVe instance, so [tokenize] on it is the
    decorated function, and it hits. *)
Lemma tokenize_cached w self text v :
  Inv ext w ->
  cache_get (self, text) (w_cache w) = Some v ->
  exec ext (Invoke self (Tokenize text)) w =
    (Ok v, set_cache (((self, text), v) :: cache_remove (self, text) (w_cache w)) w).
Proof.
  intros HI Hget.
  destruct (inv_cache_owner _ _ HI (self, text)) as (o & Ho & Hc).
  { apply cache_get_is_Some. by rewrite Hget. }
  simpl in *. unfold invoke. rewrite Ho, Hc. simpl.
  by apply tokenize_hit.
Qed.

Lemma cache_get_front k v c : cache_get k ((k, v) :: c) = Some v.
Proof. simpl. unfold key_eqb. by rewrite bool_decide_eq_true_2. Qed.

Lemma cache_get_cons_ne k k' v c :
  k' <> k -> cache_get k ((k', v) :: c) = cache_get k c.
Proof. intros H. simpl. unfold key_eqb. by rewrite bool_decide_eq_false_2. Qed.

(** One call, with the key cached before and after: the stored result is
    the same, no request was sent for the key, and if the call was
    [tokenize] on that key it returned the stored result. *)
Lemma step_cached w c self text v :
  Inv ext w ->
  cache_get (self, text) (w_cache w) = Some v ->
  cached (self, text) (snd (exec ext c w)) ->
  cache_get (self, text) (w_cache (snd (exec ext c w))) = Some v /\
  requests_for (self, text) (snd (exec ext c w)) = requests_for (self, text) w /\
  (c = Invoke self (Tokenize text) -> fst (exec ext c w) = Ok v).
Proof.
  intros HI Hget Hstay. unfold cached in Hstay.
  split; [|split]; [| |intros ->; by rewrite (tokenize_cached _ _ _ _ HI Hget)].
  - destruct c as [k|s m]; simpl in *.
    { destruct (new_frame w k) as [Hc Hr]. by rewrite Hc. }
    destruct (invoke_cases w s m HI)
      as [Hsame|[(dev & Hto)|(t & o & -> & Ho & Hcls & Hok & Hrun)]].
    + by rewrite Hsame.
    + rewrite Hto. destruct (to_frame w s dev) as [Hc Hr]. by rewrite Hc.
    + rewrite Hrun in *.
      destruct (cache_get (s, t) (w_cache w)) as [v'|] eqn:Hst.
      * rewrite (tokenize_hit _ _ _ _ Hst). cbn [snd set_cache w_cache].
        destruct (decide ((s, t) = (self, text))) as [Heq|Hne].
        -- injection Heq as -> ->. rewrite cache_get_front. congruence.
        -- rewrite cache_get_cons_ne by done.
           by rewrite cache_get_remove_ne.
      * assert ((s, t) <> (self, text)) as Hne by congruence.
        destruct (tokenize_miss w s o t Ho Hcls Hok Hst)
          as (w2 & o1 & Hh & Hc1 & Hok1 & Hca & Hrq & Heq).
        rewrite Heq in *.
        destruct (tokens_of _ _) as [v'|e]; cbn [snd set_cache w_cache] in *;
          [|by rewrite Hca].
        unfold cache_store in *. destruct (maxsize <=? _)%nat.
        -- rewrite cache_get_cons_ne in * by done.
           by rewrite (cache_get_removelast _ _ Hstay).
        -- by rewrite cache_get_cons_ne.
  - destruct c as [k|s m]; simpl in *.
    { destruct (new_frame w k) as [Hc Hr]. unfold requests_for. by rewrite Hr. }
    destruct (invoke_cases w s m HI)
      as [Hsame|[(dev & Hto)|(t & o & -> & Ho & Hcls & Hok & Hrun)]].
    + by rewrite Hsame.
    + rewrite Hto. destruct (to_frame w s dev) as [Hc Hr].
      unfold requests_for. by rewrite Hr.
    + rewrite Hrun in *.
      destruct (cache_get (s, t) (w_cache w)) as [v'|] eqn:Hst.
      * by rewrite (tokenize_hit _ _ _ _ Hst).
      * assert ((s, t) <> (self, text)) as Hne by congruence.
        destruct (tokenize_miss w s o t Ho Hcls Hok Hst)
          as (w2 & o1 & Hh & Hc1 & Hok1 & Hca & Hrq & Heq).
        rewrite Heq. apply (requests_for_cons_ne _ (s, t)); [done|].
        by destruct (tokens_of _ _).
Qed.

(** The same along a sequence of calls. *)
Lemma run_cached cs w self text v :
  Inv ext w ->
  cache_get (self, text) (w_cache w) = Some v ->
  stays_cached ext (self, text) cs w ->
  cache_get (self, text) (w_cache (run ext cs w)) = Some v /\
  requests_for (self, text) (run ext cs w) = requests_for (self, text) w /\
  (forall i, cs !! i = Some (Invoke self (Tokenize text)) ->
             outcomes ext cs w !! i = Some (Ok v)).
Proof.
  revert w. induction cs as [|c cs IH]; intros w HI Hget Hstay.
  - by repeat split.
  - destruct Hstay as [Hc Hcs].
    destruct (step_cached w c self text v HI Hget Hc) as (Hget1 & Hrq1 & Hres1).
    destruct (IH _ (exec_Inv w c HI) Hget1 Hcs) as (Hget2 & Hrq2 & Hres2).
    simpl. repeat split; try done; try congruence.
    intros [|i]; simpl.
    + intros [= ->]. by rewrite Hres1.
    + apply Hres2.
Qed.

(** A miss on a GloVe instance, as [exec] sees it. *)
Lemma tokenize_uncached w self o text :
  Inv ext w -> w_heap w !! self = Some o -> cls o = GloVe ->
  cache_get (self, text) (w_cache w) = None ->
  w_requests (snd (exec ext (Invoke self (Tokenize text)) w)) =
    (self, text) :: w_requests w /\
  forall v, fst (exec ext (Invoke self (Tokenize text)) w) = Ok v ->
    w_cache (snd (exec ext (Invoke self (Tokenize text)) w)) =
      if (length (w_cache w) =? maxsize)%nat
      then ((self, text), v) :: removelast (w_cache w)
      else ((self, text), v) :: w_cache w.
Proof.
  intros HI Ho Hc Hmiss. pose proof (inv_heap _ _ HI _ _ Ho) as Hok.
  unfold obj_ok in Hok. rewrite Hc in Hok.
  destruct (tokenize_miss w self o text Ho Hc Hok Hmiss)
    as (w2 & o1 & Hh & Hc1 & Hok1 & Hca & Hrq & Heq).
  simpl. unfold invoke. rewrite Ho, Hc. simpl. rewrite Heq.
  split; [by destruct (tokens_of _ _)|].
  intros v. destruct (tokens_of _ _) as [v'|e]; [|done]. intros [= ->].
  simpl. unfold cache_store. pose proof (inv_cache_size _ _ HI).
  destruct (Nat.leb_spec maxsize (length (w_cache w)));
    destruct (Nat.eqb_spec (length (w_cache w)) maxsize); try done; lia.
Qed.

Lemma requests_for_cons k w r :
  w_requests r = k :: w_requests w ->
  requests_for k r = S (requests_for k w).
Proof.
  intros Hr. unfold requests_for. rewrite Hr.
  by rewrite filter_cons_True.
Qed.

Lemma cache_remove_elem k c (e : key * pyval) :
  e ∈ cache_remove k c -> e ∈ c.
Proof.
  induction c as [|[k0 v0] c IH]; simpl; [done|].
  destruct (key_eqb k k0).
  - intros H. apply list_elem_of_further. by apply IH.
  - rewrite !elem_of_cons. intros [->|H]; auto.
Qed.

Lemma exec_cache_from_service w c :
  Inv ext w -> cache_from_service ext w ->
  cache_from_service ext (snd (exec ext c w)).
Proof.
  intros HI Hfrom. destruct c as [k|s m]; simpl.
  { destruct (new_frame w k) as [Hc _]. unfold cache_from_service.
    by rewrite Hc. }
  destruct (invoke_cases w s m HI)
    as [Hsame|[(dev & Hto)|(t & o & -> & Ho & Hcls & Hok & Hrun)]].
  - by rewrite Hsame.
  - rewrite Hto. destruct (to_frame w s dev) as [Hc _].
    unfold cache_from_service. by rewrite Hc.
  - rewrite Hrun.
    destruct (cache_get (s, t) (w_cache w)) as [v'|] eqn:Hst.
    + rewrite (tokenize_hit _ _ _ _ Hst). cbn [snd].
      intros k v. unfold set_cache. cbn [w_cache].
      rewrite elem_of_cons. intros [[= -> ->]|Hin].
      * apply Hfrom. by apply cache_get_Some_elem.
      * apply Hfrom. by apply cache_remove_elem in Hin.
    + destruct (tokenize_miss w s o t Ho Hcls Hok Hst)
        as (w2 & o1 & Hh & Hc1 & Hok1 & Hca & Hrq & ->).
      destruct (tokens_of _ _) as [v'|e] eqn:Hans; cbn [snd].
      * intros k v. unfold set_cache. cbn [w_cache].
        unfold cache_store.
        destruct (maxsize <=? _)%nat; rewrite elem_of_cons;
          (intros [[= -> ->]|Hin]; [by eexists|]).
        -- apply Hfrom. by apply removelast_elem.
        -- by apply Hfrom.
      * unfold cache_from_service. by rewrite Hca.
Qed.

Lemma reachable_cache_from_service w :
  reachable ext w -> cache_from_service ext w.
Proof.
  induction 1 as [|w c Hr IH].
  - intros k v H. by apply elem_of_nil in H.
  - by apply exec_cache_from_service; [apply reachable_Inv|].
Qed.

(** With a service that answers a text the same way each time, [tokenize]
    gives that answer in every reachable state, stored or not. *)
Lemma tokenize_deterministic w self o text :
  deterministic_service ext ->
  reachable ext w -> w_heap w !! self = Some o -> cls o = GloVe ->
  fst (exec ext (Invoke self (Tokenize text)) w) =
    tokens_of ext (ext_annotate ext 0 text).
Proof.
  intros Hdet Hr Ho Hc. pose proof (reachable_Inv w Hr) as HI.
  destruct (cache_get (self, text) (w_cache w)) as [v|] eqn:Hget.
  - rewrite (tokenize_cached _ _ _ _ HI Hget). cbn [fst].
    apply cache_get_Some_elem in Hget.
    destruct (reachable_cache_from_service w Hr _ _ Hget) as [n <-].
    cbn [snd]. by rewrite (Hdet n 0%nat).
  - pose proof (inv_heap _ _ HI _ _ Ho) as Hok.
    unfold obj_ok in Hok. rewrite Hc in Hok.
    destruct (tokenize_miss w self o text Ho Hc Hok Hget)
      as (w2 & o1 & Hh & Hc1 & Hok1 & Hca & Hrq & Heq).
    simpl. unfold invoke. rewrite Ho, Hc. simpl. rewrite Heq.
    rewrite (Hdet (length (w_requests w)) 0%nat).
    by destruct (tokens_of ext (ext_annotate ext 0 text)).
Qed.

(** The empty string: GloVe and BPEmb return what the wrapped tokenizer
    makes of it, the empty list when that finds no token. *)
Lemma tokenize_empty_GloVe_BPEmb w self o :
  reachable ext w -> w_heap w !! self = Some o ->
  (cls o = GloVe -> (forall n, ext_annotate ext n "" = Ok []) ->
   fst (exec ext (Invoke self (Tokenize "")) w) = Ok (VStrList [])) /\
  (forall b, cls o = BPEmb -> attrs o !! "bpemb" = Some (VBPEmb b) ->
   bp_encode b "" = [] ->
   exec ext (Invoke self (Tokenize "")) w = (Ok (VStrList []), w)).
Proof.
  intros Hr Ho. split.
  - intros Hc Hempty. pose proof (reachable_Inv w Hr) as HI.
    destruct (cache_get (self, "") (w_cache w)) as [v|] eqn:Hget.
    + rewrite (tokenize_cached _ _ _ _ HI Hget). cbn [fst].
      apply cache_get_Some_elem in Hget.
      destruct (reachable_cache_from_service w Hr _ _ Hget) as [n <-].
      cbn [snd]. by rewrite Hempty.
    + pose proof (inv_heap _ _ HI _ _ Ho) as Hok.
      unfold obj_ok in Hok. rewrite Hc in Hok.
      destruct (tokenize_miss w self o "" Ho Hc Hok Hget)
        as (w2 & o1 & Hh & Hc1 & Hok1 & Hca & Hrq & Heq).
      simpl. unfold invoke. rewrite Ho, Hc. simpl. rewrite Heq.
      by rewrite Hempty.
  - intros b Hc Hb Hempty.
    rewrite (BPEmb_tokenize_run w self o b "" Ho Hc Hb). by rewrite Hempty.
Qed.

(** ** The cache holds the most recently used keys *)

Lemma cache_remove_filter k c :
  (cache_remove k c).*1 = filter (fun k' => k' <> k) (c.*1).
Proof.
  induction c as [|[k0 v] c IH]; [done|].
  rewrite fmap_cons. cbn [cache_remove fst].
  unfold key_eqb. case_bool_decide as Hk.
  - subst. rewrite filter_cons_False by tauto. exact IH.
  - rewrite filter_cons_True by congruence. by rewrite fmap_cons, IH.
Qed.

Lemma filter_ne_notin (k : key) (l : list key) :
  k ∉ l -> filter (fun k' => k' <> k) l = l.
Proof.
  induction l as [|a l IH]; [done|].
  rewrite not_elem_of_cons. intros [Hne Hl].
  rewrite filter_cons_True by congruence. by rewrite IH.
Qed.

(** Removing a key that is not among the first [m] leaves them alone. *)
Lemma take_filter_notin (k : key) m (l : list key) :
  k ∉ take m l -> take m (filter (fun k' => k' <> k) l) = take m l.
Proof.
  revert m. induction l as [|a l IH]; intros m; [done|].
  destruct m as [|m]; [done|]. simpl.
  rewrite not_elem_of_cons. intros [Hne Hl].
  rewrite filter_cons_True by congruence. simpl. by rewrite IH.
Qed.

(** Removing one of the first [n + 1] lets the next one move up. *)
Lemma take_filter_in (k : key) n (l : list key) :
  NoDup l -> k ∈ take (S n) l ->
  take n (filter (fun k' => k' <> k) l) =
  filter (fun k' => k' <> k) (take (S n) l).
Proof.
  revert n. induction l as [|a l IH]; intros n Hd Hin.
  { by apply elem_of_nil in Hin. }
  apply NoDup_cons in Hd as [Ha Hd].
  destruct (decide (a = k)) as [->|Hne].
  - rewrite filter_cons_False by tauto.
    rewrite (filter_ne_notin k l Ha). simpl.
    rewrite filter_cons_False by tauto.
    rewrite filter_ne_notin; [done|].
    intros H. by apply Ha, (subseteq_take n l).
  - rewrite filter_cons_True by done.
    simpl in Hin. apply elem_of_cons in Hin as [->|Hin]; [done|].
    destruct n as [|n]; [by apply elem_of_nil in Hin|].
    change (a :: take n (filter (fun k' => k' <> k) l) =
            filter (fun k' => k' <> k) (a :: take (S n) l)).
    rewrite filter_cons_True by done. by rewrite (IH n Hd Hin).
Qed.

Lemma touch_NoDup k hist : NoDup hist -> NoDup (touch k hist).
Proof.
  intros Hd. unfold touch. apply NoDup_cons. split.
  - rewrite list_elem_of_filter. tauto.
  - by apply NoDup_filter.
Qed.

(** A call that uses no key leaves the cache as it is. *)
Lemma exec_cache_unused w c :
  Inv ext w -> used ext c w = None ->
  w_cache (snd (exec ext c w)) = w_cache w.
Proof.
  intros HI Hu. destruct c as [k0|s m]; simpl.
  { by destruct (new_frame w k0). }
  destruct (invoke_cases w s m HI)
    as [Hsame|[(dev & Hto)|(t & o & -> & Ho & Hcls & Hok & Hrun)]].
  - by rewrite Hsame.
  - rewrite Hto. by destruct (to_frame w s dev).
  - unfold used in Hu. rewrite Ho, Hcls in Hu. simpl in Hu.
    rewrite Hrun in *.
    destruct (cache_get (s, t) (w_cache w)) as [v|] eqn:Hst.
    + by rewrite (tokenize_hit _ _ _ _ Hst) in Hu.
    + destruct (tokenize_miss w s o t Ho Hcls Hok Hst)
        as (w2 & o1 & Hh & Hc1 & Hok1 & Hca & Hrq & Heq).
      rewrite Heq in *. by destruct (tokens_of _ _).
Qed.

(** The call that uses a key is [tokenize] on a GloVe instance, and it
    returned. *)
Lemma used_Some w c k :
  used ext c w = Some k ->
  exists o v, c = Invoke (fst k) (Tokenize (snd k)) /\
    w_heap w !! fst k = Some o /\ cls o = GloVe /\
    fst (exec ext c w) = Ok v.
Proof.
  destruct c as [k0|s m]; [done|]. destruct m; try done.
  unfold used. destruct (w_heap w !! s) as [o|] eqn:Ho; [|done].
  destruct (cls o) eqn:Hc; try done.
  destruct (fst (exec ext _ w)) as [v|e] eqn:Hres; [|done].
  intros [= <-]. by exists o, v.
Qed.

(** One call keeps the cache on the first [maxsize] keys of the order of
    last use. *)
Lemma exec_recency w c hist :
  Inv ext w -> NoDup hist -> (w_cache w).*1 = take maxsize hist ->
  NoDup (match used ext c w with Some k => touch k hist | None => hist end) /\
  (w_cache (snd (exec ext c w))).*1 =
    take maxsize (match used ext c w with Some k => touch k hist | None => hist end).
Proof.
  intros HI Hd Hkeys. destruct (used ext c w) as [k|] eqn:Hu.
  2:{ split; [done|]. by rewrite (exec_cache_unused w c HI Hu). }
  split; [by apply touch_NoDup|].
  destruct (used_Some w c k Hu) as (o & v & -> & Ho & Hc & Hres).
  destruct k as [self text]. cbn [fst snd] in *.
  unfold touch. change maxsize with (S 1023) in *. cbn [take firstn].
  destruct (cache_get (self, text) (w_cache w)) as [v'|] eqn:Hget.
  - rewrite (tokenize_cached _ _ _ _ HI Hget). cbn [snd set_cache w_cache].
    rewrite fmap_cons. cbn [fst]. f_equal.
    rewrite cache_remove_filter, Hkeys.
    symmetry. apply take_filter_in; [done|].
    rewrite <- Hkeys. apply cache_get_is_Some. by rewrite Hget.
  - destruct (tokenize_uncached w self o text HI Ho Hc Hget) as [_ Hstore].
    rewrite (Hstore v Hres).
    assert ((self, text) ∉ take 1023 hist) as Hnot.
    { intros Hin. apply (proj1 (cache_get_None _ _) Hget). rewrite Hkeys.
      apply elem_of_take in Hin as (i & Hi & Hlt).
      apply elem_of_take. exists i. split; [done|lia]. }
    rewrite (take_filter_notin _ _ _ Hnot).
    assert (take 1023 hist = take 1023 ((w_cache w).*1)) as ->.
    { rewrite Hkeys, take_take. f_equal. }
    pose proof (inv_cache_size _ _ HI) as Hsize.
    change maxsize with (S 1023) in *.
    destruct (Nat.eqb_spec (length (w_cache w)) (S 1023)) as [Hfull|Hroom];
      rewrite fmap_cons; cbn [fst]; f_equal.
    + rewrite removelast_keys, removelast_firstn_len.
      by rewrite length_fmap, Hfull.
    + symmetry. apply take_ge. rewrite length_fmap. lia.
Qed.

(** After any sequence of calls the cache holds the [maxsize] most
    recently used keys, the most recent first. *)
Lemma run_recency cs w hist :
  Inv ext w -> NoDup hist -> (w_cache w).*1 = take maxsize hist ->
  (w_cache (run ext cs w)).*1 = take maxsize (recency ext cs w hist).
Proof.
  revert w hist. induction cs as [|c cs IH]; intros w hist HI Hd Hkeys; [done|].
  destruct (exec_recency w c hist HI Hd Hkeys) as [Hd1 Hkeys1].
  simpl. apply IH; [by apply exec_Inv|done|done].
Qed.

(** C6. For a GloVe instance of a reachable state and a text:
    the cache never holds more than 1024 entries;
    while the text stays cached, every [tokenize] of it returns the stored
    result and no request for it reaches the annotation client;
    from a miss on, while the text stays cached, the client has been asked
    for it exactly once, however many calls follow;
    a miss stores its result in front, dropping the entry at the back of
    the recency order, the least recently used one, when 1024 entries are
    held, and dropping nothing otherwise;
    when the annotation service answers a text the same way each time,
    [tokenize] of the text gives the same result after any sequence of
    calls, cached or not;
    a hit returns the stored result and moves its entry to the front of
    the recency order, leaving the other entries in their order and the
    rest of the state as it was;
    and after any sequence of calls the keys of the cache are the 1024 most
    recently used ones, the most recent first, a use being a [tokenize] on
    a GloVe instance that returned: so the entry a miss drops is the one
    whose last use, hit or miss, is the oldest. *)
Theorem tokenize_memoized_lru_1024 w self o text :
  reachable ext w -> w_heap w !! self = Some o -> cls o = GloVe ->
  (length (w_cache w) <= 1024)%nat /\
  (forall v cs,
     cache_get (self, text) (w_cache w) = Some v ->
     stays_cached ext (self, text) cs w ->
     (forall i, cs !! i = Some (Invoke self (Tokenize text)) ->
                outcomes ext cs w !! i = Some (Ok v)) /\
     requests_for (self, text) (run ext cs w) = requests_for (self, text) w) /\
  (forall cs,
     cache_get (self, text) (w_cache w) = None ->
     stays_cached ext (self, text) (Invoke self (Tokenize text) :: cs) w ->
     requests_for (self, text) (run ext (Invoke self (Tokenize text) :: cs) w) =
       S (requests_for (self, text) w)) /\
  (forall v,
     cache_get (self, text) (w_cache w) = None ->
     fst (exec ext (Invoke self (Tokenize text)) w) = Ok v ->
     w_cache (snd (exec ext (Invoke self (Tokenize text)) w)) =
       if (length (w_cache w) =? 1024)%nat
       then ((self, text), v) :: removelast (w_cache w)
       else ((self, text), v) :: w_cache w) /\
  (deterministic_service ext ->
   forall cs,
     fst (exec ext (Invoke self (Tokenize text)) (run ext cs w)) =
     fst (exec ext (Invoke self (Tokenize text)) w)) /\
  (forall v,
     cache_get (self, text) (w_cache w) = Some v ->
     exec ext (Invoke self (Tokenize text)) w =
       (Ok v,
        set_cache (((self, text), v) :: cache_remove (self, text) (w_cache w)) w)) /\
  (forall cs,
     (w_cache (run ext cs w)).*1 =
       take 1024 (recency ext cs w ((w_cache w).*1))).
Proof.
  intros Hr Ho Hc. pose proof (reachable_Inv w Hr) as HI.
  split; [apply (inv_cache_size _ _ HI)|].
  split; [|split; [|split; [|split; [|split]]]].
  - intros v cs Hget Hstay.
    destruct (run_cached cs w self text v HI Hget Hstay) as (_ & Hrq & Hres).
    by split.
  - intros cs Hmiss [Hc1 Hcs].
    destruct (tokenize_uncached w self o text HI Ho Hc Hmiss) as [Hrq _].
    destruct Hc1 as [v Hv].
    destruct (run_cached cs _ self text v (exec_Inv w _ HI) Hv Hcs)
      as (_ & Hrq' & _).
    change (run ext (Invoke self (Tokenize text) :: cs) w)
      with (run ext cs (snd (exec ext (Invoke self (Tokenize text)) w))).
    rewrite Hrq'. by apply requests_for_cons.
  - intros v Hmiss Hres.
    by apply (tokenize_uncached w self o text HI Ho Hc Hmiss).
  - intros Hdet cs.
    destruct (run_keeps cs w self o HI Ho) as (o' & Ho' & Hc').
    rewrite (tokenize_deterministic _ self o' text Hdet
               (reachable_run cs w Hr) Ho') by congruence.
    by rewrite (tokenize_deterministic w self o text Hdet Hr Ho Hc).
  - intros v Hget. by apply tokenize_cached.
  - intros cs. apply (run_recency cs w _ HI (inv_cache_keys _ _ HI)).
    symmetry. apply take_ge. rewrite length_fmap.
    apply (inv_cache_size _ _ HI).
Qed.

(** ** One cache for the class *)

Lemma filter_owner_ne (a b : loc) (c : list (key * pyval)) :
  a <> b ->
  filter (fun e : key * pyval => fst (fst e) = a)
         (filter (fun e : key * pyval => fst (fst e) <> b) c) =
  filter (fun e : key * pyval => fst (fst e) = a) c.
Proof.
  intros Hne. induction c as [|e c IH]; [done|].
  destruct (decide (fst (fst e) = b)) as [Hb|Hb].
  - rewrite (filter_cons_False (fun e => fst (fst e) <> b)) by tauto.
    rewrite (filter_cons_False (fun e => fst (fst e) = a)) by congruence.
    done.
  - rewrite (filter_cons_True (fun e => fst (fst e) <> b)) by done.
    rewrite !(filter_cons (fun e => fst (fst e) = a)), IH. done.
Qed.

(** The entries of distinct instances are distinct entries of the one
    cache. *)
Lemma entries_sum (ls : list loc) (c : list (key * pyval)) :
  NoDup ls ->
  (foldr (fun l n =>
            length (filter (fun e : key * pyval => fst (fst e) = l) c) + n) 0 ls
   <= length c)%nat.
Proof.
  intros Hnd. revert c. induction Hnd as [|l ls Hl Hnd IH]; intros c; simpl.
  - lia.
  - pose proof (filter_app_complement (fun e : key * pyval => fst (fst e) = l) c)
      as Hperm.
    apply Permutation_length in Hperm. rewrite length_app in Hperm.
    specialize (IH (filter (fun e : key * pyval => fst (fst e) <> l) c)).
    assert (foldr (fun l0 n =>
              length (filter (fun e : key * pyval => fst (fst e) = l0) c) + n) 0 ls =
            foldr (fun l0 n =>
              length (filter (fun e : key * pyval => fst (fst e) = l0)
                (filter (fun e : key * pyval => fst (fst e) <> l) c)) + n) 0 ls)
      as ->; [|lia].
    clear IH Hperm. induction ls as [|l' ls IH']; [done|]. simpl.
    apply not_elem_of_cons in Hl as [Hne Hl].
    apply NoDup_cons in Hnd as [_ Hnd].
    rewrite filter_owner_ne by done. by rewrite IH'.
Qed.

Lemma last_key_evicted (c : list (key * pyval)) e :
  NoDup c.*1 -> last c = Some e -> fst e ∉ (removelast c).*1.
Proof.
  intros Hnd Hlast. apply last_Some in Hlast as [c' ->].
  rewrite removelast_last. rewrite fmap_app in Hnd.
  apply NoDup_app in Hnd as (_ & Hno & _).
  intros Hin. apply (Hno _ Hin). simpl. apply list_elem_of_here.
Qed.

(** C8. The cache of [tokenize] belongs to the class, its keys are pairs of
    an instance and a text: in every reachable state the entries of any
    number of distinct instances, counted together, are at most the
    entries of the one cache, which are at most 1024; and when the cache
    is full and its least recently used entry belongs to the instance [a],
    a [tokenize] that misses on another instance [b] evicts it. *)
Theorem tokenize_cache_shared_by_instances w ls a b s t :
  reachable ext w -> NoDup ls ->
  (foldr (fun l n => entries_of l w + n) 0 ls <= length (w_cache w))%nat /\
  (length (w_cache w) <= 1024)%nat /\
  (forall va v,
     a <> b -> is_GloVe w b ->
     length (w_cache w) = 1024%nat ->
     last (w_cache w) = Some ((a, s), va) ->
     cache_get (b, t) (w_cache w) = None ->
     fst (exec ext (Invoke b (Tokenize t)) w) = Ok v ->
     cached (a, s) w /\
     ~ cached (a, s) (snd (exec ext (Invoke b (Tokenize t)) w)) /\
     cached (b, t) (snd (exec ext (Invoke b (Tokenize t)) w)) /\
     length (w_cache (snd (exec ext (Invoke b (Tokenize t)) w))) = 1024%nat).
Proof.
  intros Hr Hnd. pose proof (reachable_Inv w Hr) as HI.
  split; [by apply entries_sum|]. split; [apply (inv_cache_size _ _ HI)|].
  intros va v Hab (o & Ho & Hc) Hfull Hlast Hmiss Hres.
  destruct (tokenize_uncached w b o t HI Ho Hc Hmiss) as [_ Hstore].
  unfold cached. rewrite !(Hstore v Hres).
  replace (length (w_cache w) =? maxsize)%nat with true
    by (symmetry; by apply Nat.eqb_eq).
  pose proof (last_key_evicted _ _ (inv_cache_keys _ _ HI) Hlast) as Hgone.
  split; [|split; [|split]].
  - apply cache_get_is_Some. apply last_Some_elem_of in Hlast.
    apply list_elem_of_fmap. by exists ((a, s), va).
  - rewrite cache_get_cons_ne by congruence.
    rewrite cache_get_is_Some. exact Hgone.
  - rewrite cache_get_front. by eexists.
  - simpl. rewrite removelast_length, Hfull. done.
Qed.

End Proofs.

(** * More of the module *)

Section More.

Context (ext : Externals).

Implicit Types (w : World) (self l : loc) (o : instance).

(** ** The client, exactly *)

Lemma corenlp_client_run w self o :
  w_heap w !! self = Some o -> glove_ok ext self (attrs o) ->
  GloVe_corenlp_client ext self w = (Ok (VClient self), start_client ext self o w).
Proof.
  intros Ho (kind & g & dev & Hload & Hg & Hd & Hv & [Hn|Hn]).
  - unfold GloVe_corenlp_client, start_client, bind.
    rewrite (getattr_Some _ _ _ _ _ Ho Hn), Hn. simpl.
    unfold setattr. simpl. rewrite Ho. unfold getattr. simpl.
    rewrite lookup_insert_eq. simpl. by rewrite lookup_insert_eq.
  - unfold GloVe_corenlp_client, start_client, bind.
    rewrite (getattr_Some _ _ _ _ _ Ho Hn), Hn. simpl.
    by rewrite (getattr_Some _ _ _ _ _ Ho Hn).
Qed.

Lemma tokenize_body_run w self o text :
  w_heap w !! self = Some o -> glove_ok ext self (attrs o) ->
  GloVe_tokenize_body ext self text w =
    (tokens_of ext (ext_annotate ext (length (w_requests w)) text),
     set_requests ((self, text) :: w_requests w) (start_client ext self o w)).
Proof.
  intros Ho Hok. unfold GloVe_tokenize_body, bind.
  rewrite (corenlp_client_run w self o Ho Hok). simpl.
  assert (w_requests (start_client ext self o w) = w_requests w) as ->.
  { unfold start_client. by repeat case_match. }
  by destruct (ext_annotate ext (length (w_requests w)) text).
Qed.

Lemma start_client_cache self o w :
  w_cache (start_client ext self o w) = w_cache w.
Proof. unfold start_client. by repeat case_match. Qed.

(** A miss, exactly. *)
Lemma tokenize_miss_run w self o text :
  w_heap w !! self = Some o -> glove_ok ext self (attrs o) ->
  cache_get (self, text) (w_cache w) = None ->
  GloVe_tokenize ext self text w =
    match tokens_of ext (ext_annotate ext (length (w_requests w)) text) with
    | Ok v =>
        (Ok v,
         set_cache (cache_store (self, text) v (w_cache w))
           (set_requests ((self, text) :: w_requests w)
              (start_client ext self o w)))
    | Raise e =>
        (Raise e,
         set_requests ((self, text) :: w_requests w) (start_client ext self o w))
    end.
Proof.
  intros Ho Hok Hmiss. unfold GloVe_tokenize, lru_cache.
  rewrite Hmiss, (tokenize_body_run w self o text Ho Hok).
  destruct (tokens_of _ _) as [v|e]; [|done].
  cbn [w_cache set_requests]. rewrite start_client_cache, Hmiss.
  unfold cache_store. by destruct (maxsize <=? _)%nat.
Qed.

(** ** What one call does to the heap and the environment *)

Lemma start_client_heap_environ self o w :
  w_heap w !! self = Some o ->
  (w_heap (start_client ext self o w) = w_heap w /\
   w_environ (start_client ext self o w) = w_environ w) \/
  (attrs o !! "_corenlp_client" = Some VNone /\
   w_heap (start_client ext self o w) =
     <[self := {| cls := cls o;
                  attrs := <["_corenlp_client" := VClient self]> (attrs o) |}]>
       (w_heap w) /\
   w_environ (start_client ext self o w) =
     <["CORENLP_HOME" := ext_corenlp_home ext]> (w_environ w)).
Proof.
  intros Ho. unfold start_client.
  destruct (attrs o !! "_corenlp_client") as [[]|] eqn:Hn; auto.
Qed.

(** A call leaves heap and environment alone, or allocates, or moves one
    table, or starts one client. *)
Lemma exec_heap_cases w c :
  Inv ext w ->
  (w_heap (snd (exec ext c w)) = w_heap w /\
   w_environ (snd (exec ext c w)) = w_environ w) \/
  (exists k l o1,
     c = New k /\ w_heap w !! l = None /\
     (forall l', attrs o1 !! "_corenlp_client" <> Some (VClient l')) /\
     w_heap (snd (exec ext c w)) = <[l := o1]> (w_heap w) /\
     w_environ (snd (exec ext c w)) = w_environ w) \/
  (exists self dev d o d0 rows,
     c = Invoke self (To dev) /\ ext_torch_device ext dev = Ok d /\
     w_heap w !! self = Some o /\
     attrs o !! "vectors" = Some (VTensor d0 rows) /\
     w_heap (snd (exec ext c w)) =
       <[self := {| cls := cls o;
                    attrs := <["vectors" := VTensor d rows]> (attrs o) |}]>
         (w_heap w) /\
     w_environ (snd (exec ext c w)) = w_environ w) \/
  (exists self text o,
     c = Invoke self (Tokenize text) /\ w_heap w !! self = Some o /\
     cls o = GloVe /\
     attrs o !! "_corenlp_client" = Some VNone /\
     w_heap (snd (exec ext c w)) =
       <[self := {| cls := cls o;
                    attrs := <["_corenlp_client" := VClient self]> (attrs o) |}]>
         (w_heap w) /\
     w_environ (snd (exec ext c w)) =
       <["CORENLP_HOME" := ext_corenlp_home ext]> (w_environ w)).
Proof.
  intros HI. destruct c as [k|self m]; simpl.
  - destruct k as [kind|dim vs lang|prefix].
    + rewrite new_GloVe_spec. destruct (ext_load_glove ext kind) as [g|e].
      * right; left. eexists _, _, _. split; [done|].
        split; [apply fresh_free|]. split; [|done].
        intros l'. simpl. unfold GloVe_attrs.
        rewrite !lookup_insert_ne by done. by rewrite lookup_insert_eq.
      * by left.
    + rewrite new_BPEmb_spec.
      destruct (ext_load_bpemb ext lang dim vs) as [b|e].
      * right; left. eexists _, _, _. split; [done|].
        split; [apply fresh_free|]. split; [|done].
        intros l'. simpl. unfold BPEmb_attrs.
        rewrite !lookup_insert_ne by done. by rewrite lookup_empty.
      * by left.
    + rewrite new_SentencePiece_spec.
      right; left. eexists _, _, _. split; [done|].
      split; [apply fresh_free|]. split; [|done].
      intros l'. simpl. unfold sentencepiece_attrs.
      rewrite !lookup_insert_ne by done. by rewrite lookup_empty.
  - unfold invoke.
    destruct (w_heap w !! self) as [o|] eqn:Ho; [|by left].
    pose proof (inv_heap _ _ HI _ _ Ho) as Hok. unfold obj_ok in Hok.
    assert (forall dev, cls o <> SentencePiece ->
              exists d0 rows, attrs o !! "vectors" = Some (VTensor d0 rows) /\
                snd (GloVe_to ext self dev w) =
                  match ext_torch_device ext dev with
                  | Ok d =>
                      set_heap (<[self := {| cls := cls o;
                         attrs := <["vectors" := VTensor d rows]> (attrs o) |}]>
                         (w_heap w)) w
                  | Raise _ => w
                  end) as Hto.
    { intros dev Hns. destruct (cls o) eqn:Hc; try done.
      - destruct Hok as (kind & g & d & Hload & Hg & Hd & Hv & Hn).
        exists d, (tt_vectors g). split; [done|].
        rewrite (to_spec ext _ _ _ _ _ _ Ho Hv).
        destruct (ext_torch_device ext dev); [simpl; by rewrite ?Hc|done].
      - destruct Hok as (lang & dim & vs & b & d & Hload & Hb & Hd & Hv).
        exists d, (bp_vectors b). split; [done|].
        rewrite (to_spec ext _ _ _ _ _ _ Ho Hv).
        destruct (ext_torch_device ext dev); [simpl; by rewrite ?Hc|done]. }
    destruct (cls o) eqn:Hc; [done| | |]; destruct m; simpl;
      try (by left);
      try (left; split; by first
        [ rewrite pure_GloVe_lookup | rewrite pure_GloVe_contains
        | rewrite pure_BPEmb_tokenize | rewrite pure_BPEmb_untokenize
        | rewrite pure_BPEmb_lookup | rewrite pure_BPEmb_contains
        | rewrite pure_SentencePiece_tokenize
        | rewrite pure_SentencePiece_untokenize
        | rewrite pure_SentencePiece_lookup
        | rewrite pure_SentencePiece_contains ]).
    + destruct (cache_get (self, text) (w_cache w)) as [v|] eqn:Hget.
      * rewrite (tokenize_hit _ _ _ _ _ Hget). by left.
      * rewrite (tokenize_miss_run w self o text Ho Hok Hget).
        destruct (start_client_heap_environ self o w Ho)
          as [[Hh He]|(Hn & Hh & He)].
        -- left. by destruct (tokens_of _ _).
        -- right; right; right. exists self, text, o.
           repeat (split; [done|]). rewrite ?Hc in Hh |- *.
           rewrite <- Hh, <- He. by destruct (tokens_of _ _).
    + destruct (Hto dev) as (d0 & rows & Hv & Hrun); [done|].
      rewrite Hrun. destruct (ext_torch_device ext dev) as [d|e] eqn:Hdev;
        [|by left].
      right; right; left. exists self, dev, d, o, d0, rows.
      repeat (split; [done|]). by rewrite Hc.
    + destruct (Hto dev) as (d0 & rows & Hv & Hrun); [done|].
      rewrite BPEmb_to_eq, Hrun.
      destruct (ext_torch_device ext dev) as [d|e] eqn:Hdev; [|by left].
      right; right; left. exists self, dev, d, o, d0, rows.
      repeat (split; [done|]). by rewrite Hc.
    + left. rewrite SentencePiece_to_eq, (to_unset ext _ _ _ _ Ho); [done|].
      rewrite Hok. apply sentencepiece_no_vectors.
Qed.

Lemma same_model_refl o : same_model o o.
Proof. by repeat split. Qed.

Lemma same_model_trans o1 o2 o3 :
  same_model o1 o2 -> same_model o2 o3 -> same_model o1 o3.
Proof.
  intros (?&?&?&?&?) (?&?&?&?&?). repeat split; congruence.
Qed.

(** An instance keeps its model through a call; its client, once there,
    stays. *)
Lemma exec_same_model w c l o :
  Inv ext w -> w_heap w !! l = Some o ->
  exists o', w_heap (snd (exec ext c w)) !! l = Some o' /\ same_model o o' /\
    (attrs o !! "_corenlp_client" = Some (VClient l) ->
     attrs o' !! "_corenlp_client" = Some (VClient l)).
Proof.
  intros HI Hl.
  destruct (exec_heap_cases w c HI)
    as [[Hh _]|[(k & l0 & o1 & _ & Hfree & _ & Hh & _)
       |[(self & dev & d & os & d0 & rows & _ & _ & Hs & Hv & Hh & _)
        |(self & text & os & _ & Hs & Hc & Hn & Hh & _)]]]; rewrite Hh.
  - exists o. split; [done|]. split; [apply same_model_refl|done].
  - exists o. rewrite lookup_insert_ne by congruence.
    split; [done|]. split; [apply same_model_refl|done].
  - destruct (decide (self = l)) as [->|Hne].
    + rewrite lookup_insert_eq. eexists. split; [done|].
      assert (os = o) as -> by congruence. simpl.
      split; [|by rewrite lookup_insert_ne].
      repeat split; simpl; rewrite ?lookup_insert_ne by done; try done.
      by rewrite lookup_insert_eq, Hv.
    + exists o. rewrite lookup_insert_ne by done.
      split; [done|]. split; [apply same_model_refl|done].
  - destruct (decide (self = l)) as [->|Hne].
    + rewrite lookup_insert_eq. eexists. split; [done|].
      assert (os = o) as -> by congruence. simpl.
      split; [|by rewrite lookup_insert_eq].
      repeat split; simpl; by rewrite ?lookup_insert_ne by done.
    + exists o. rewrite lookup_insert_ne by done.
      split; [done|]. split; [apply same_model_refl|done].
Qed.

Lemma run_same_model cs w l o :
  Inv ext w -> w_heap w !! l = Some o ->
  exists o', w_heap (run ext cs w) !! l = Some o' /\ same_model o o' /\
    (attrs o !! "_corenlp_client" = Some (VClient l) ->
     attrs o' !! "_corenlp_client" = Some (VClient l)).
Proof.
  revert w o. induction cs as [|c cs IH]; intros w o HI Hl.
  - exists o. split; [done|]. split; [apply same_model_refl|done].
  - destruct (exec_same_model w c l o HI Hl) as (o1 & Hl1 & Hm1 & Hc1).
    destruct (IH _ o1 (exec_Inv ext w c HI) Hl1) as (o2 & Hl2 & Hm2 & Hc2).
    exists o2. split; [done|]. split; [by eapply same_model_trans|auto].
Qed.

(** The table's device does not decide which row an index picks. *)
Lemma getitem_on_device d d1 d2 rows i :
  on_device d (getitem (VTensor d1 rows) i) =
  on_device d (getitem (VTensor d2 rows) i).
Proof.
  unfold getitem. destruct i; try done.
  destruct (_ && _); [|done]. by destruct (rows !! _).
Qed.

Lemma getitem_device d d1 rows i :
  getitem (VTensor d rows) i = on_device d (getitem (VTensor d1 rows) i).
Proof.
  unfold getitem. destruct i; try done.
  destruct (_ && _); [|done]. by destruct (rows !! _).
Qed.

(** What [lookup], [contains] and [dim] give depends on the model alone,
    the device of a vector apart. *)
Lemma answers_same_model w w' self o o' token :
  w_heap w !! self = Some o -> obj_ok ext self o ->
  w_heap w' !! self = Some o' -> obj_ok ext self o' ->
  same_model o o' ->
  (forall d, on_device d (fst (invoke ext self (Lookup token) w')) =
             on_device d (fst (invoke ext self (Lookup token) w))) /\
  fst (invoke ext self (Contains token) w') =
    fst (invoke ext self (Contains token) w) /\
  fst (getattr self "dim" w') = fst (getattr self "dim" w).
Proof.
  intros Ho Hok Ho' Hok' (Hc & Hg & Hb & Hd & Hr).
  unfold invoke, getattr. rewrite Ho, Ho', Hd, Hc.
  split; [|split; [|by destruct (attrs o !! "dim")]].
  - intros d. unfold obj_ok in *. rewrite Hc in Hok'.
    destruct (cls o) eqn:Hcls; [done| | |]; simpl.
    + destruct Hok as (kind & g & dev & Hload & Hg1 & Hd1 & Hv1 & Hn1).
      destruct Hok' as (kind' & g' & dev' & Hload' & Hg2 & Hd2 & Hv2 & Hn2).
      assert (g' = g) as -> by congruence.
      rewrite (GloVe_lookup_run _ _ _ _ _ _ Ho Hg1 Hv1).
      rewrite (GloVe_lookup_run _ _ _ _ _ _ Ho' Hg2 Hv2). simpl.
      destruct (tt_stoi g !! token); [|done]. apply getitem_on_device.
    + destruct Hok as (lang & dim & vs & b & dev & Hload & Hb1 & Hd1 & Hv1).
      destruct Hok' as (lang' & dim' & vs' & b' & dev' & Hload' & Hb2 & Hd2 & Hv2).
      assert (b' = b) as -> by congruence.
      rewrite (BPEmb_lookup_run _ _ _ _ _ _ Ho Hb1 Hv1).
      rewrite (BPEmb_lookup_run _ _ _ _ _ _ Ho' Hb2 Hv2). simpl.
      destruct (_ =? _)%Z; [done|]. apply getitem_on_device.
    + by rewrite (SentencePiece_lookup_run _ _ _ _ Ho Hok),
                 (SentencePiece_lookup_run _ _ _ _ Ho' Hok').
  - unfold obj_ok in *. rewrite Hc in Hok'.
    destruct (cls o) eqn:Hcls; [done| | |]; cbv [resolve own_method].
    + destruct Hok as (kind & g & dev & Hload & Hg1 & Hd1 & Hv1 & Hn1).
      destruct Hok' as (kind' & g' & dev' & Hload' & Hg2 & Hd2 & Hv2 & Hn2).
      assert (g' = g) as -> by congruence.
      by rewrite (GloVe_contains_run _ _ _ _ _ Ho Hg1),
                 (GloVe_contains_run _ _ _ _ _ Ho' Hg2).
    + destruct Hok as (lang & dim & vs & b & dev & Hload & Hb1 & Hd1 & Hv1).
      destruct Hok' as (lang' & dim' & vs' & b' & dev' & Hload' & Hb2 & Hd2 & Hv2).
      assert (b' = b) as -> by congruence.
      unfold BPEmb_contains.
      rewrite !(contains_via_lookup (BPEmb_lookup self token))
        by apply pure_BPEmb_lookup.
      rewrite (BPEmb_lookup_run _ _ _ _ _ _ Ho Hb1 Hv1).
      rewrite (BPEmb_lookup_run _ _ _ _ _ _ Ho' Hb2 Hv2). simpl.
      destruct (_ =? _)%Z; [done|].
      rewrite (getitem_device dev' dev). by destruct (getitem _ _) as [[]|].
    + unfold SentencePiece_contains.
      rewrite !(contains_via_lookup (SentencePiece_lookup self token))
        by apply pure_SentencePiece_lookup.
      by rewrite (SentencePiece_lookup_run _ _ _ _ Ho Hok),
                 (SentencePiece_lookup_run _ _ _ _ Ho' Hok').
Qed.

(** ** Moving the table *)

Lemma to_run w self o dev :
  Inv ext w -> w_heap w !! self = Some o -> cls o <> SentencePiece ->
  exists d0 rows,
    attrs o !! "vectors" = Some (VTensor d0 rows) /\
    invoke ext self (To dev) w =
      match ext_torch_device ext dev with
      | Ok d =>
          (Ok VNone,
           with_obj w self
             {| cls := cls o;
                attrs := <["vectors" := VTensor d rows]> (attrs o) |})
      | Raise e => (Raise e, w)
      end.
Proof.
  intros HI Ho Hns. pose proof (inv_heap _ _ HI _ _ Ho) as Hok.
  unfold obj_ok in Hok. unfold invoke. rewrite Ho.
  destruct (cls o) eqn:Hc; try done; simpl.
  - destruct Hok as (kind & g & d & Hload & Hg & Hd & Hv & Hn).
    exists d, (tt_vectors g). split; [done|].
    rewrite (to_spec ext _ _ _ _ _ _ Ho Hv).
    destruct (ext_torch_device ext dev); [by rewrite ?Hc|done].
  - destruct Hok as (lang & dim & vs & b & d & Hload & Hb & Hd & Hv).
    exists d, (bp_vectors b). split; [done|].
    rewrite BPEmb_to_eq, (to_spec ext _ _ _ _ _ _ Ho Hv).
    destruct (ext_torch_device ext dev); [by rewrite ?Hc|done].
Qed.

(** [to(device)] on a GloVe or BPEmb instance follows torch's
    [tensor.to(device)].  Where torch accepts the device, the call returns
    [None], and afterwards [lookup] gives the same answers with every
    vector on the device torch resolved; [contains], [dim], the cache, the
    request log and the environment are as before.  Where torch raises,
    the call raises the same error and nothing at all has changed: the
    table stays where it was. *)
Theorem to_moves_the_table w self o dev token :
  reachable ext w -> w_heap w !! self = Some o -> cls o <> SentencePiece ->
  match ext_torch_device ext dev with
  | Ok d =>
      fst (exec ext (Invoke self (To dev)) w) = Ok VNone /\
      fst (exec ext (Invoke self (Lookup token))
             (snd (exec ext (Invoke self (To dev)) w))) =
        on_device d (fst (exec ext (Invoke self (Lookup token)) w)) /\
      fst (exec ext (Invoke self (Contains token))
             (snd (exec ext (Invoke self (To dev)) w))) =
        fst (exec ext (Invoke self (Contains token)) w) /\
      fst (getattr self "dim" (snd (exec ext (Invoke self (To dev)) w))) =
        fst (getattr self "dim" w) /\
      w_cache (snd (exec ext (Invoke self (To dev)) w)) = w_cache w /\
      w_requests (snd (exec ext (Invoke self (To dev)) w)) = w_requests w /\
      w_environ (snd (exec ext (Invoke self (To dev)) w)) = w_environ w
  | Raise e =>
      exec ext (Invoke self (To dev)) w = (Raise e, w)
  end.
Proof.
  intros Hr Ho Hns. pose proof (reachable_Inv ext w Hr) as HI.
  pose proof (exec_Inv ext w (Invoke self (To dev)) HI) as HI'.
  destruct (to_run w self o dev HI Ho Hns) as (d0 & rows & Hv & Hrun).
  simpl in *. rewrite Hrun in *.
  destruct (ext_torch_device ext dev) as [dv|e]; [|done].
  cbn [fst snd] in *.
  set (o1 := {| cls := cls o;
                attrs := <["vectors" := VTensor dv rows]> (attrs o) |}) in *.
  assert (w_heap (with_obj w self o1) !! self = Some o1) as Ho1
    by (simpl; apply lookup_insert_eq).
  assert (same_model o o1) as Hm.
  { repeat split; simpl; rewrite ?lookup_insert_ne by done; try done.
    by rewrite lookup_insert_eq, Hv. }
  pose proof (inv_heap _ _ HI _ _ Ho) as Hok.
  pose proof (inv_heap _ _ HI' _ _ Ho1) as Hok1.
  destruct (answers_same_model w (with_obj w self o1) self o o1 token
              Ho Hok Ho1 Hok1 Hm) as (Hl & Hc & Hd).
  split; [done|]. split; [|by repeat split].
  rewrite <- (Hl dv). clear Hl Hc Hd.
  unfold invoke. rewrite Ho1. unfold obj_ok in Hok1. subst o1. simpl in *.
  destruct (cls o) eqn:Hcls; try done; simpl.
  - destruct Hok1 as (kind & g & d & Hload & Hg & Hd & Hv1 & Hn).
    rewrite (GloVe_lookup_run (with_obj w self _) self _ g d token Ho1 Hg Hv1).
    cbn [fst]. rewrite lookup_insert_eq in Hv1. injection Hv1 as <- _.
    destruct (tt_stoi g !! token); [|done].
    rewrite (getitem_device dv dv). by destruct (getitem _ _) as [[]|].
  - destruct Hok1 as (lang & dim & vs & b & d & Hload & Hb & Hd & Hv1).
    rewrite (BPEmb_lookup_run (with_obj w self _) self _ b d token Ho1 Hb Hv1).
    cbn [fst]. rewrite lookup_insert_eq in Hv1. injection Hv1 as <- _.
    destruct (_ =? _)%Z; [done|].
    rewrite (getitem_device dv dv). by destruct (getitem _ _) as [[]|].
Qed.

(** The answers of an instance never change: after any sequence of calls,
    on it or on others, [lookup] gives the same result up to the device of
    the vector, and [contains] and [dim] give the same result. *)
Theorem answers_never_change w self o cs token :
  reachable ext w -> w_heap w !! self = Some o ->
  (forall d,
     on_device d (fst (exec ext (Invoke self (Lookup token)) (run ext cs w))) =
     on_device d (fst (exec ext (Invoke self (Lookup token)) w))) /\
  fst (exec ext (Invoke self (Contains token)) (run ext cs w)) =
    fst (exec ext (Invoke self (Contains token)) w) /\
  fst (getattr self "dim" (run ext cs w)) = fst (getattr self "dim" w).
Proof.
  intros Hr Ho. pose proof (reachable_Inv ext w Hr) as HI.
  destruct (run_same_model cs w self o HI Ho) as (o' & Ho' & Hm & _).
  apply (answers_same_model w (run ext cs w) self o o' token); try done.
  - by apply (inv_heap _ _ HI).
  - by apply (inv_heap _ _ (run_Inv ext cs w HI)).
Qed.

(** A method call on one instance leaves every other instance as it is,
    and so does a constructor call. *)
Theorem calls_leave_other_instances_alone w c l o :
  reachable ext w -> w_heap w !! l = Some o ->
  (forall m, c <> Invoke l m) ->
  w_heap (snd (exec ext c w)) !! l = Some o.
Proof.
  intros Hr Hl Hne. pose proof (reachable_Inv ext w Hr) as HI.
  destruct (exec_heap_cases w c HI)
    as [[Hh _]|[(k & l0 & o1 & _ & Hfree & _ & Hh & _)
       |[(self & dev & d & os & d0 & rows & -> & _ & Hs & Hv & Hh & _)
        |(self & text & os & -> & Hs & Hc & Hn & Hh & _)]]]; rewrite Hh.
  - done.
  - rewrite lookup_insert_ne; [done|congruence].
  - rewrite lookup_insert_ne; [done|]. intros ->. by apply (Hne (To dev)).
  - rewrite lookup_insert_ne; [done|]. intros ->. by apply (Hne (Tokenize text)).
Qed.

(** ** The annotation client *)




(** ** Constructors *)

Lemma with_obj_allocated w o :
  allocated w (fresh (dom (w_heap w))) (with_obj w (fresh (dom (w_heap w))) o).
Proof.
  split; [apply fresh_free|]. split; [by simpl; rewrite lookup_insert_eq|].
  split; [|done]. intros l' Hne. simpl. by rewrite lookup_insert_ne.
Qed.

(** A constructor whose library cannot be loaded raises the library's error
    and leaves the state exactly as it was.  Otherwise it returns a new
    object and changes nothing else: no client is started, no request is
    sent, the environment is not written.  The [dim] of a GloVe instance
    is the one of the loaded vectors, the [dim] of a BPEmb instance is the
    constructor argument.  The constructor of SentencePiece cannot
    fail. *)
Theorem constructors_fail_fast_or_allocate w kind dim vocab_size lang save_prefix :
  match ext_load_glove ext kind with
  | Ok g =>
      exists l w',
        exec ext (New (New_GloVe kind)) w = (Ok (VObj l), w') /\
        allocated w l w' /\
        getattr l "dim" w' = (Ok (VInt (tt_dim g)), w') /\
        getattr l "_corenlp_client" w' = (Ok VNone, w')
  | Raise e => exec ext (New (New_GloVe kind)) w = (Raise e, w)
  end /\
  match ext_load_bpemb ext lang dim vocab_size with
  | Ok b =>
      exists l w',
        exec ext (New (New_BPEmb dim vocab_size lang)) w = (Ok (VObj l), w') /\
        allocated w l w' /\
        getattr l "dim" w' = (Ok (VInt dim), w')
  | Raise e => exec ext (New (New_BPEmb dim vocab_size lang)) w = (Raise e, w)
  end /\
  exists l w',
    exec ext (New (New_SentencePiece save_prefix)) w = (Ok (VObj l), w') /\
    allocated w l w'.
Proof.
  simpl. rewrite new_GloVe_spec, new_BPEmb_spec, new_SentencePiece_spec.
  split; [|split].
  - destruct (ext_load_glove ext kind) as [g|e]; [|done].
    eexists _, _. split; [done|]. split; [apply with_obj_allocated|].
    split; apply (getattr_with_obj _ _ _ _ _); simpl; unfold GloVe_attrs;
      rewrite ?lookup_insert_ne by done; by rewrite lookup_insert_eq.
  - destruct (ext_load_bpemb ext lang dim vocab_size) as [b|e]; [|done].
    eexists _, _. split; [done|]. split; [apply with_obj_allocated|].
    apply (getattr_with_obj _ _ _ _ _); simpl; unfold BPEmb_attrs;
      rewrite ?lookup_insert_ne by done; by rewrite lookup_insert_eq.
  - eexists _, _. split; [done|]. apply with_obj_allocated.
Qed.

(** ** SentencePiece *)

(** On a SentencePiece instance [tokenize], [contains] and [to] raise
    [AttributeError] on every argument, in every reachable state, and leave
    the state as it is. *)
Theorem SentencePiece_tokenize_contains_to_raise w self o text token dev :
  reachable ext w -> w_heap w !! self = Some o -> cls o = SentencePiece ->
  exec ext (Invoke self (Tokenize text)) w = (Raise (AttributeError "encode"), w) /\
  exec ext (Invoke self (Contains token)) w = (Raise (AttributeError "bpemb"), w) /\
  exec ext (Invoke self (To dev)) w = (Raise (AttributeError "vectors"), w).
Proof.
  intros Hr Ho Hc. pose proof (reachable_obj ext w self o Hr Ho) as Hok.
  unfold obj_ok in Hok. rewrite Hc in Hok.
  simpl. unfold invoke. rewrite Ho, Hc. simpl.
  split; [by apply (SentencePiece_tokenize_run _ _ o)|]. split.
  - unfold SentencePiece_contains.
    rewrite (contains_via_lookup (SentencePiece_lookup self token))
      by apply pure_SentencePiece_lookup.
    by rewrite (SentencePiece_lookup_run _ _ _ _ Ho Hok).
  - rewrite SentencePiece_to_eq. apply (to_unset ext _ _ _ _ Ho).
    rewrite Hok. apply sentencepiece_no_vectors.
Qed.

(** ** What tokenize returns *)

(** Whatever [tokenize] of a GloVe instance returns for a text, from the
    cache or not, is an answer of the annotation service to that very text:
    the words of its sentences in order, each passed through [str.lower],
    one token for each word. *)
Theorem tokenize_returns_lowercased_annotation w self o text v :
  reachable ext w -> w_heap w !! self = Some o -> cls o = GloVe ->
  fst (exec ext (Invoke self (Tokenize text)) w) = Ok v ->
  exists n ann toks,
    ext_annotate ext n text = Ok ann /\
    v = VStrList toks /\
    toks = flat_map (fun sent => map (ext_str_lower ext) sent) ann /\
    toks = map (ext_str_lower ext) (concat ann) /\
    length toks = length (concat ann).
Proof.
  intros Hr Ho Hc Hres. pose proof (reachable_Inv ext w Hr) as HI.
  assert (exists n, tokens_of ext (ext_annotate ext n text) = Ok v) as [n Hn].
  { destruct (cache_get (self, text) (w_cache w)) as [v'|] eqn:Hget.
    - rewrite (tokenize_cached ext _ _ _ _ HI Hget) in Hres.
      injection Hres as ->. apply cache_get_Some_elem in Hget.
      apply (reachable_cache_from_service ext w Hr _ _ Hget).
    - pose proof (inv_heap _ _ HI _ _ Ho) as Hok.
      unfold obj_ok in Hok. rewrite Hc in Hok.
      simpl in Hres. unfold invoke in Hres. rewrite Ho, Hc in Hres.
      simpl in Hres. rewrite (tokenize_miss_run w self o text Ho Hok Hget) in Hres.
      exists (length (w_requests w)). by destruct (tokens_of _ _). }
  destruct (ext_annotate ext n text) as [ann|e] eqn:Hann; [|done].
  exists n, ann, (flat_map (fun sent => map (ext_str_lower ext) sent) ann).
  split; [done|]. injection Hn as <-. split; [done|]. split; [done|].
  assert (flat_map (fun sent => map (ext_str_lower ext) sent) ann =
          map (ext_str_lower ext) (concat ann)) as ->.
  { clear. induction ann as [|sent ann IH]; [done|].
    simpl. by rewrite IH, map_app. }
  split; [done|apply length_map].
Qed.

(** An annotation that fails is not memoized: the error goes to the
    caller, the request has been sent, the cache is as before, and the next
    [tokenize] of the text asks the service again. *)
Theorem failed_annotation_is_not_cached w self o text e :
  reachable ext w -> w_heap w !! self = Some o -> cls o = GloVe ->
  cache_get (self, text) (w_cache w) = None ->
  ext_annotate ext (length (w_requests w)) text = Raise e ->
  fst (exec ext (Invoke self (Tokenize text)) w) = Raise e /\
  w_cache (snd (exec ext (Invoke self (Tokenize text)) w)) = w_cache w /\
  w_requests (snd (exec ext (Invoke self (Tokenize text)) w)) =
    (self, text) :: w_requests w /\
  w_requests (run ext [Invoke self (Tokenize text); Invoke self (Tokenize text)] w) =
    (self, text) :: (self, text) :: w_requests w.
Proof.
  intros Hr Ho Hc Hmiss Hfail. pose proof (reachable_Inv ext w Hr) as HI.
  pose proof (inv_heap _ _ HI _ _ Ho) as Hok. unfold obj_ok in Hok.
  rewrite Hc in Hok.
  assert (exec ext (Invoke self (Tokenize text)) w =
          (Raise e, set_requests ((self, text) :: w_requests w)
                      (start_client ext self o w))) as Hrun.
  { simpl. unfold invoke. rewrite Ho, Hc. simpl.
    by rewrite (tokenize_miss_run w self o text Ho Hok Hmiss), Hfail. }
  assert (w_cache (snd (exec ext (Invoke self (Tokenize text)) w)) = w_cache w)
    as Hcache by (rewrite Hrun; simpl; apply start_client_cache).
  assert (w_requests (snd (exec ext (Invoke self (Tokenize text)) w)) =
            (self, text) :: w_requests w) as Hreq.
  { rewrite Hrun. simpl. unfold start_client. by repeat case_match. }
  split; [by rewrite Hrun|]. split; [done|]. split; [done|].
  destruct (exec_keeps ext w (Invoke self (Tokenize text)) self o HI Ho)
    as (o' & Ho' & Hc').
  destruct (tokenize_uncached ext _ self o' text
              (exec_Inv ext w _ HI) Ho') as [Hreq2 _]; [congruence|by rewrite Hcache|].
  change (run ext [Invoke self (Tokenize text); Invoke self (Tokenize text)] w)
    with (snd (exec ext (Invoke self (Tokenize text))
                 (snd (exec ext (Invoke self (Tokenize text)) w)))).
  by rewrite Hreq2, Hreq.
Qed.

Lemma cache_remove_notin k c : k ∉ c.*1 -> cache_remove k c = c.
Proof.
  induction c as [|[k0 v0] c IH]; [done|]. simpl.
  rewrite not_elem_of_cons. intros [Hne Hnin].
  unfold key_eqb. rewrite bool_decide_eq_false_2 by done. by rewrite IH.
Qed.

Lemma set_cache_id w : set_cache (w_cache w) w = w.
Proof. by destruct w. Qed.

(** After a [tokenize] that returned, the same call again returns the same
    result and changes nothing at all: no request, no reordering. *)
Theorem tokenize_again_changes_nothing w self o text v :
  reachable ext w -> w_heap w !! self = Some o -> cls o = GloVe ->
  fst (exec ext (Invoke self (Tokenize text)) w) = Ok v ->
  exec ext (Invoke self (Tokenize text)) (snd (exec ext (Invoke self (Tokenize text)) w)) =
    (Ok v, snd (exec ext (Invoke self (Tokenize text)) w)).
Proof.
  intros Hr Ho Hc Hres. pose proof (reachable_Inv ext w Hr) as HI.
  pose proof (exec_Inv ext w (Invoke self (Tokenize text)) HI) as HI'.
  assert (exists rest,
            w_cache (snd (exec ext (Invoke self (Tokenize text)) w)) =
              ((self, text), v) :: rest) as [rest Hfront].
  { destruct (cache_get (self, text) (w_cache w)) as [v'|] eqn:Hget.
    - rewrite (tokenize_cached ext _ _ _ _ HI Hget) in *.
      injection Hres as ->. by eexists.
    - destruct (tokenize_uncached ext w self o text HI Ho Hc Hget) as [_ Hst].
      rewrite (Hst v Hres). destruct (_ =? _)%nat; by eexists. }
  set (w' := snd (exec ext (Invoke self (Tokenize text)) w)) in *.
  assert (cache_get (self, text) (w_cache w') = Some v) as Hget'
    by (rewrite Hfront; apply cache_get_front).
  assert (((self, text), v) :: cache_remove (self, text) (w_cache w') =
          w_cache w') as Hsame.
  { pose proof (inv_cache_keys _ _ HI') as Hnd. rewrite Hfront in Hnd |- *.
    rewrite fmap_cons in Hnd. apply NoDup_cons in Hnd as [Hnin _].
    simpl. unfold key_eqb. rewrite bool_decide_eq_true_2 by done.
    by rewrite cache_remove_notin. }
  rewrite (tokenize_cached ext _ _ _ _ HI' Hget'), Hsame.
  by rewrite set_cache_id.
Qed.

Lemma exec_cached_requested w c :
  Inv ext w ->
  (forall k, k ∈ (w_cache w).*1 -> k ∈ w_requests w) ->
  forall k, k ∈ (w_cache (snd (exec ext c w))).*1 ->
            k ∈ w_requests (snd (exec ext c w)).
Proof.
  intros HI Hsub. destruct c as [k0|s m]; simpl.
  { destruct (new_frame ext w k0) as [-> ->]. exact Hsub. }
  destruct (invoke_cases ext w s m HI)
    as [Hsame|[(dev & Hto)|(t & o & -> & Ho & Hcls & Hok & Hrun)]].
  - by rewrite Hsame.
  - rewrite Hto. destruct (to_frame ext w s dev) as [-> ->]. exact Hsub.
  - rewrite Hrun.
    destruct (cache_get (s, t) (w_cache w)) as [v'|] eqn:Hst.
    + rewrite (tokenize_hit ext _ _ _ _ Hst). cbn [snd]. unfold set_cache.
      cbn [w_cache w_requests]. intros k. rewrite fmap_cons, elem_of_cons.
      intros [->|Hin].
      * cbn [fst]. apply Hsub. apply (proj1 (cache_get_is_Some _ _)).
        by rewrite Hst.
      * apply Hsub. by apply cache_remove_keys in Hin as [? _].
    + rewrite (tokenize_miss_run w s o t Ho Hok Hst).
      assert (w_requests (start_client ext s o w) = w_requests w) as Hrq
        by (unfold start_client; by repeat case_match).
      destruct (tokens_of _ _) as [v'|e]; cbn [snd]; unfold set_cache, set_requests;
        cbn [w_cache w_requests]; intros k Hin.
      * apply cache_store_keys in Hin as [->|Hin]; [apply list_elem_of_here|].
        apply list_elem_of_further, Hsub, Hin.
      * rewrite start_client_cache in Hin.
        apply list_elem_of_further, Hsub, Hin.
Qed.

(** Nothing is cached that was not asked of the service: every key of the
    cache is in the request log, and the instance it names is a GloVe
    instance. *)
Theorem cached_keys_were_requested w k v :
  reachable ext w -> cache_get k (w_cache w) = Some v ->
  k ∈ w_requests w /\ (0 < requests_for k w)%nat /\ is_GloVe w (fst k).
Proof.
  intros Hr Hget.
  assert (k ∈ (w_cache w).*1) as Hin
    by (apply (proj1 (cache_get_is_Some _ _)); by rewrite Hget).
  assert (forall k, k ∈ (w_cache w).*1 -> k ∈ w_requests w) as Hsub.
  { clear k v Hget Hin. induction Hr as [|w c Hr IH].
    - intros k Hin. by apply elem_of_nil in Hin.
    - by apply exec_cached_requested; [apply reachable_Inv|]. }
  split; [by apply Hsub|]. split.
  - unfold requests_for.
    assert (k ∈ filter (fun r => r = k) (w_requests w)) as Hf
      by (apply list_elem_of_filter; split; [done|by apply Hsub]).
    destruct (filter _ _); [by apply elem_of_nil in Hf|simpl; lia].
  - by apply (inv_cache_owner _ _ (reachable_Inv ext w Hr)).
Qed.

(** ** Untokenize *)

Lemma append_assoc (a b c : string) : ((a ++ b) ++ c = a ++ (b ++ c))%string.
Proof.
  induction a as [|x a IH]; [done|].
  change (String x ((a +:+ b) +:+ c) = String x (a +:+ b +:+ c)).
  by rewrite IH.
Qed.

Lemma concat_app sep (l1 l2 : list string) :
  l1 <> [] -> l2 <> [] ->
  String.concat sep (l1 ++ l2) =
    (String.concat sep l1 ++ sep ++ String.concat sep l2)%string.
Proof.
  intros H1 H2. induction l1 as [|a l1 IH]; [done|].
  destruct l1 as [|b l1].
  - simpl. by destruct l2.
  - change (String.concat sep ((a :: b :: l1) ++ l2))
      with (a ++ sep ++ String.concat sep ((b :: l1) ++ l2))%string.
    rewrite IH by done.
    change (String.concat sep (a :: b :: l1))
      with (a ++ sep ++ String.concat sep (b :: l1))%string.
    by rewrite !append_assoc.
Qed.

(** [untokenize] of a GloVe instance never fails and never touches the
    state; no tokens give the empty string, one token gives itself, and the
    tokens of two sequences put together give the two strings with one
    space between. *)
Theorem GloVe_untokenize_joins_with_spaces w self o tokens1 tokens2 :
  reachable ext w -> w_heap w !! self = Some o -> cls o = GloVe ->
  tokens1 <> [] -> tokens2 <> [] ->
  exists s1 s2,
    exec ext (Invoke self (Untokenize tokens1)) w = (Ok (VStr s1), w) /\
    exec ext (Invoke self (Untokenize tokens2)) w = (Ok (VStr s2), w) /\
    exec ext (Invoke self (Untokenize (tokens1 ++ tokens2))) w =
      (Ok (VStr (s1 ++ " " ++ s2)), w) /\
    exec ext (Invoke self (Untokenize [])) w = (Ok (VStr ""), w) /\
    (forall t, exec ext (Invoke self (Untokenize [t])) w = (Ok (VStr t), w)).
Proof.
  intros Hr Ho Hc H1 H2.
  exists (String.concat " " tokens1), (String.concat " " tokens2).
  simpl. unfold invoke. rewrite Ho, Hc. simpl.
  unfold GloVe_untokenize, lift. simpl.
  repeat split. by rewrite concat_app.
Qed.


(** ** Lookup, by index *)

Lemma getitem_out_of_range dev rows i :
  ~ (- Z.of_nat (length rows) <= i < Z.of_nat (length rows))%Z ->
  getitem (VTensor dev rows) (VInt i) = Raise IndexError.
Proof.
  intros Hi. unfold getitem.
  destruct (Z.ltb_spec i 0) as [Hneg|Hpos].
  - destruct (Z.leb_spec 0 (i + Z.of_nat (length rows))) as [H0|H0]; [|done].
    destruct (Z.ltb_spec (i + Z.of_nat (length rows)) (Z.of_nat (length rows)))
      as [H1|H1]; [lia|done].
  - destruct (Z.leb_spec 0 i) as [H0|H0]; [|done].
    destruct (Z.ltb_spec i (Z.of_nat (length rows))) as [H1|H1]; [lia|done].
Qed.

Lemma getitem_negative dev rows i :
  (- Z.of_nat (length rows) <= i < 0)%Z ->
  exists row, rows !! Z.to_nat (i + Z.of_nat (length rows)) = Some row /\
              getitem (VTensor dev rows) (VInt i) = Ok (VVector dev row).
Proof.
  intros Hi. unfold getitem.
  destruct (Z.ltb_spec i 0) as [_|?]; [|lia].
  destruct (Z.leb_spec 0 (i + Z.of_nat (length rows))) as [_|?]; [|lia].
  destruct (Z.ltb_spec (i + Z.of_nat (length rows)) (Z.of_nat (length rows)))
    as [_|?]; [|lia]. simpl.
  destruct (lookup_lt_is_Some_2 rows (Z.to_nat (i + Z.of_nat (length rows))))
    as [row Hrow]; [lia|].
  exists row. by rewrite Hrow.
Qed.

(** A hit returns the row of the table at the index the vocabulary gives
    the token, on the device the table is on: for GloVe the index is
    [stoi[token]], for BPEmb the piece id, when it is not the unknown
    id. *)
Theorem lookup_returns_the_indexed_row w self o token :
  reachable ext w -> w_heap w !! self = Some o ->
  (forall g dev rows i row,
     cls o = GloVe -> attrs o !! "glove" = Some (VGloVe g) ->
     attrs o !! "vectors" = Some (VTensor dev rows) ->
     tt_stoi g !! token = Some i -> (0 <= i)%Z ->
     rows !! Z.to_nat i = Some row ->
     rows = tt_vectors g /\
     exec ext (Invoke self (Lookup token)) w = (Ok (VVector dev row), w)) /\
  (forall b dev rows row,
     cls o = BPEmb -> attrs o !! "bpemb" = Some (VBPEmb b) ->
     attrs o !! "vectors" = Some (VTensor dev rows) ->
     PieceToId (bp_spm b) token <> unk_id (bp_spm b) ->
     (0 <= PieceToId (bp_spm b) token)%Z ->
     rows !! Z.to_nat (PieceToId (bp_spm b) token) = Some row ->
     rows = bp_vectors b /\
     exec ext (Invoke self (Lookup token)) w = (Ok (VVector dev row), w)).
Proof.
  intros Hr Ho. pose proof (reachable_obj ext w self o Hr Ho) as Hok.
  unfold obj_ok in Hok. simpl. unfold invoke. rewrite Ho. split.
  - intros g dev rows i row Hc Hg Hv Hi Hpos Hrow. rewrite Hc in *. simpl.
    destruct Hok as (kind & g' & dev' & Hload & Hg' & Hd & Hv' & Hn).
    assert (g' = g) as -> by congruence.
    assert (dev' = dev /\ tt_vectors g = rows) as [-> <-]
      by (split; congruence).
    split; [done|].
    rewrite (GloVe_lookup_run _ _ _ _ _ _ Ho Hg Hv), Hi.
    destruct (getitem_row dev (tt_vectors g) i) as (row' & Hrow' & ->).
    { split; [done|]. apply lookup_lt_Some in Hrow. lia. }
    congruence.
  - intros b dev rows row Hc Hb Hv Hne Hpos Hrow. rewrite Hc in *. simpl.
    destruct Hok as (lang & dim & vs & b' & dev' & Hload & Hb' & Hd & Hv').
    assert (b' = b) as -> by congruence.
    assert (dev' = dev /\ bp_vectors b = rows) as [-> <-]
      by (split; congruence).
    split; [done|].
    rewrite (BPEmb_lookup_run _ _ _ _ _ _ Ho Hb Hv).
    rewrite (proj2 (Z.eqb_neq _ _) Hne).
    destruct (getitem_row dev (bp_vectors b) (PieceToId (bp_spm b) token))
      as (row' & Hrow' & ->).
    { split; [done|]. apply lookup_lt_Some in Hrow. lia. }
    congruence.
Qed.

(** An index outside the table: [lookup] raises [IndexError]; [contains]
    of a GloVe instance, which asks the vocabulary alone, still answers
    [True], while [contains] of a BPEmb instance raises with [lookup].  A
    negative index within the table counts from its end. *)
Theorem lookup_index_out_of_range w self o token :
  reachable ext w -> w_heap w !! self = Some o ->
  (forall g i,
     cls o = GloVe -> attrs o !! "glove" = Some (VGloVe g) ->
     tt_stoi g !! token = Some i ->
     (~ (- Z.of_nat (length (tt_vectors g)) <= i < Z.of_nat (length (tt_vectors g)))%Z ->
      exec ext (Invoke self (Lookup token)) w = (Raise IndexError, w) /\
      exec ext (Invoke self (Contains token)) w = (Ok (VBool true), w)) /\
     ((- Z.of_nat (length (tt_vectors g)) <= i < 0)%Z ->
      exists dev row,
        tt_vectors g !! Z.to_nat (i + Z.of_nat (length (tt_vectors g))) = Some row /\
        exec ext (Invoke self (Lookup token)) w = (Ok (VVector dev row), w))) /\
  (forall b,
     cls o = BPEmb -> attrs o !! "bpemb" = Some (VBPEmb b) ->
     PieceToId (bp_spm b) token <> unk_id (bp_spm b) ->
     ~ (- Z.of_nat (length (bp_vectors b)) <= PieceToId (bp_spm b) token
        < Z.of_nat (length (bp_vectors b)))%Z ->
     exec ext (Invoke self (Lookup token)) w = (Raise IndexError, w) /\
     exec ext (Invoke self (Contains token)) w = (Raise IndexError, w)).
Proof.
  intros Hr Ho. pose proof (reachable_obj ext w self o Hr Ho) as Hok.
  unfold obj_ok in Hok. simpl. unfold invoke. rewrite Ho. split.
  - intros g i Hc Hg Hi. rewrite Hc in *. simpl.
    destruct Hok as (kind & g' & dev & Hload & Hg' & Hd & Hv & Hn).
    assert (g' = g) as -> by congruence.
    rewrite (GloVe_lookup_run _ _ _ _ _ _ Ho Hg Hv), Hi.
    rewrite (GloVe_contains_run _ _ _ _ _ Ho Hg), Hi. split.
    + intros Hout. rewrite (getitem_out_of_range _ _ _ Hout). split; [done|].
      rewrite bool_decide_eq_true_2; [done|by eexists].
    + intros Hneg. destruct (getitem_negative dev _ _ Hneg) as (row & Hrow & ->).
      by exists dev, row.
  - intros b Hc Hb Hne Hout. rewrite Hc in *. simpl.
    destruct Hok as (lang & dim & vs & b' & dev & Hload & Hb' & Hd & Hv).
    assert (b' = b) as -> by congruence.
    unfold BPEmb_contains.
    rewrite (contains_via_lookup (BPEmb_lookup self token))
      by apply pure_BPEmb_lookup.
    rewrite (BPEmb_lookup_run _ _ _ _ _ _ Ho Hb Hv).
    rewrite (proj2 (Z.eqb_neq _ _) Hne).
    by rewrite (getitem_out_of_range _ _ _ Hout).
Qed.

End More.

(** * Examples on the small installation *)

Lemma demo_index_ok : glove_index_ok demo_ext.
Proof.
  intros kind g token i. simpl.
  destruct (String.eqb kind "6B"); [|done]. intros [= <-]. simpl.
  rewrite lookup_insert. case_decide; [intros [= <-]; lia|].
  rewrite lookup_insert. case_decide; [intros [= <-]; lia|].
  by rewrite lookup_empty.
Qed.

Lemma demo_width_ok : width_ok demo_ext.
Proof.
  split; simpl.
  - intros kind g. destruct (String.eqb kind "6B"); [|done].
    intros [= <-]. by repeat constructor.
  - intros lang dim vs b. destruct (Z.eqb_spec dim 3); [|done].
    intros [= <-]. subst. by repeat constructor.
Qed.

Lemma demo_reachable : reachable demo_ext demo_world.
Proof. apply reachable_run, reach_init. Qed.

Lemma full_reachable : reachable demo_ext full_world.
Proof. apply reachable_run, demo_reachable. Qed.

(** Memoization at work: the second [tokenize] of a text sends no request. *)
Example memoization_example :
  let cs := [Invoke 1 (Tokenize "Hello"); Invoke 1 (Tokenize "Other");
             Invoke 1 (Tokenize "Hello")] in
  outcomes demo_ext cs demo_world =
    [Ok (VStrList ["hello"]); Ok (VStrList ["other"]); Ok (VStrList ["hello"])] /\
  w_requests (run demo_ext cs demo_world) = [(1%positive, "Other"); (1%positive, "Hello")].
Proof. by vm_compute. Qed.

(** [contains] and [lookup] of the GloVe instance on a word of its
    vocabulary. *)
Lemma contains_iff_lookup_not_None_witness :
  (fst (exec demo_ext (Invoke 1 (Contains "cat")) demo_world) = Ok (VBool true) <->
   exists v, fst (exec demo_ext (Invoke 1 (Lookup "cat")) demo_world) = Ok v /\
             v <> VNone) /\
  (fst (exec demo_ext (Invoke 1 (Contains "cat")) demo_world) = Ok (VBool false) <->
   fst (exec demo_ext (Invoke 1 (Lookup "cat")) demo_world) = Ok VNone).
Proof.
  apply (contains_iff_lookup_not_None demo_ext demo_world 1 demo_glove_obj "cat").
  - exact demo_index_ok.
  - exact demo_reachable.
  - vm_compute. reflexivity.
Defined.

(** The vector of "cat" has the two entries [dim] announces. *)
Lemma lookup_vector_has_length_dim_witness :
  exists dev data,
    VVector "cpu" [20; 21]%Z = VVector dev data /\
    fst (getattr 1 "dim" demo_world) = Ok (VInt (Z.of_nat (length data))).
Proof.
  apply (lookup_vector_has_length_dim demo_ext demo_world 1 demo_glove_obj "cat").
  - exact demo_width_ok.
  - exact demo_reachable.
  - vm_compute. reflexivity.
  - vm_compute. reflexivity.
  - discriminate.
Defined.

(** The SentencePiece instance, before and after some calls. *)
Lemma requires_training_always_false_witness :
  let cs := [Invoke 3 (AddSentence "a b"); Invoke 3 Finalize; Invoke 1 (To "cuda")] in
  (forall l w', GloVe_requires_training l w' = (Ok (VBool false), w') /\
                BPEmb_requires_training l w' = (Ok (VBool false), w') /\
                SentencePiece_requires_training l w' = (Ok (VBool false), w')) /\
  exec demo_ext (Invoke 3 RequiresTraining) demo_world = (Ok (VBool false), demo_world) /\
  exec demo_ext (Invoke 3 RequiresTraining) (run demo_ext cs demo_world) =
    (Ok (VBool false), run demo_ext cs demo_world).
Proof.
  apply (requires_training_always_false demo_ext demo_world 3 demo_sentencepiece_obj).
  - exact demo_reachable.
  - vm_compute. reflexivity.
Defined.

(** The SentencePiece instance of the small installation. *)
Lemma SentencePiece_lookup_untokenize_always_raise_witness :
  attrs demo_sentencepiece_obj !! "bpemb" = None /\
  attrs demo_sentencepiece_obj !! "vectors" = None /\
  exec demo_ext (Invoke 3 (Lookup "hello")) demo_world =
    (Raise (AttributeError "bpemb"), demo_world) /\
  exec demo_ext (Invoke 3 (Untokenize ["he"; "llo"])) demo_world =
    (Raise (AttributeError "bpemb"), demo_world).
Proof.
  apply (SentencePiece_lookup_untokenize_always_raise demo_ext demo_world 3).
  - exact demo_reachable.
  - vm_compute. reflexivity.
  - reflexivity.
Defined.

(** Feeding the SentencePiece instance a sentence changes nothing. *)
Lemma add_sentence_finalize_change_nothing_witness :
  (forall c s, c <> Embedder ->
     own_method demo_ext c (AddSentence s) = None /\
     own_method demo_ext c Finalize = None) /\
  exec demo_ext (Invoke 3 (AddSentence "select name from t")) demo_world =
    (Ok VNone, demo_world) /\
  exec demo_ext (Invoke 3 Finalize) demo_world = (Ok VNone, demo_world) /\
  (cls demo_sentencepiece_obj = SentencePiece ->
   attrs demo_sentencepiece_obj !! "training_sentences" = Some (VStrList [])).
Proof.
  apply (add_sentence_finalize_change_nothing demo_ext demo_world 3).
  - exact demo_reachable.
  - vm_compute. reflexivity.
Defined.

Lemma full_world_nf_eq : full_world = full_world_nf.
Proof. vm_compute. reflexivity. Qed.

Lemma full_nf_reachable : reachable demo_ext full_world_nf.
Proof. rewrite <- full_world_nf_eq. exact full_reachable. Qed.

(** On the full cache, whose least recently used entry is the one of "1"
    and whose next one is the one of "01": a use of "1" and then a new text
    keep "1" and drop "01". *)
Example lru_eviction_example :
  let cs := [Invoke 1 (Tokenize "1"); Invoke 1 (Tokenize "Fresh")] in
  last ((w_cache full_world).*1) = Some (1%positive, "1") /\
  cached (1%positive, "01") full_world /\
  cached (1%positive, "1") (run demo_ext cs full_world) /\
  ~ cached (1%positive, "01") (run demo_ext cs full_world) /\
  take 2 ((w_cache (run demo_ext cs full_world)).*1) =
    [(1%positive, "Fresh"); (1%positive, "1")] /\
  take 2 (recency demo_ext cs full_world ((w_cache full_world).*1)) =
    [(1%positive, "Fresh"); (1%positive, "1")].
Proof.
  rewrite full_world_nf_eq. intros cs.
  split; [vm_compute; reflexivity|].
  split; [vm_compute; eexists; reflexivity|].
  split; [vm_compute; eexists; reflexivity|].
  split; [vm_compute; intros [v Hv]; discriminate|].
  split; vm_compute; reflexivity.
Qed.

(** On the full cache: a cached text is answered from the cache while
    another instance tokenizes in between; a new text costs one request
    for three calls, and its entry replaces the least recently used one; a
    hit on the least recently used text moves its entry to the front; and
    after that hit and a miss the cache holds the most recently used
    keys. *)
Lemma tokenize_memoized_lru_1024_witness :
  (length (w_cache full_world) <= 1024)%nat /\
  (let cs := [Invoke 1 (Tokenize "01"); Invoke 4 (Tokenize "01");
              Invoke 1 (Tokenize "01")] in
   outcomes demo_ext cs full_world !! 0%nat = Some (Ok (VStrList ["01"])) /\
   outcomes demo_ext cs full_world !! 2%nat = Some (Ok (VStrList ["01"])) /\
   requests_for (1%positive, "01") (run demo_ext cs full_world) =
     requests_for (1%positive, "01") full_world) /\
  (let cs := [Invoke 1 (Tokenize "Fresh"); Invoke 1 (Tokenize "Fresh");
              Invoke 1 (Tokenize "Fresh")] in
   requests_for (1%positive, "Fresh") (run demo_ext cs full_world) =
     S (requests_for (1%positive, "Fresh") full_world)) /\
  w_cache (snd (exec demo_ext (Invoke 1 (Tokenize "Fresh")) full_world)) =
    ((1%positive, "Fresh"), VStrList ["fresh"]) :: removelast (w_cache full_world) /\
  exec demo_ext (Invoke 1 (Tokenize "1")) full_world =
    (Ok (VStrList ["1"]),
     set_cache (((1%positive, "1"), VStrList ["1"]) ::
                cache_remove (1%positive, "1") (w_cache full_world)) full_world) /\
  (let cs := [Invoke 1 (Tokenize "1"); Invoke 1 (Tokenize "Fresh")] in
   (w_cache (run demo_ext cs full_world)).*1 =
     take 1024 (recency demo_ext cs full_world ((w_cache full_world).*1))).
Proof.
  rewrite full_world_nf_eq.
  assert (w_heap full_world_nf !! 1%positive = Some demo_glove_client_obj) as Ho
    by (vm_compute; reflexivity).
  assert (length (w_cache full_world_nf) = 1024%nat) as Hlen
    by (vm_compute; reflexivity).
  destruct (tokenize_memoized_lru_1024 demo_ext full_world_nf 1 _ "01"
              full_nf_reachable Ho eq_refl)
    as (Hsize & Hhit & _ & _ & _ & _ & Hrecent).
  destruct (tokenize_memoized_lru_1024 demo_ext full_world_nf 1 _ "Fresh"
              full_nf_reachable Ho eq_refl)
    as (_ & _ & Honce & Hmiss & _).
  destruct (tokenize_memoized_lru_1024 demo_ext full_world_nf 1 _ "1"
              full_nf_reachable Ho eq_refl)
    as (_ & _ & _ & _ & _ & Hfront & _).
  split; [exact Hsize|]. split; [|split; [|split; [|split]]].
  - destruct (Hhit (VStrList ["01"])
                [Invoke 1 (Tokenize "01"); Invoke 4 (Tokenize "01");
                 Invoke 1 (Tokenize "01")]) as [Hres Hrq].
    + vm_compute. reflexivity.
    + vm_compute. repeat split; eexists; reflexivity.
    + split; [apply (Hres 0%nat); reflexivity|].
      split; [apply (Hres 2%nat); reflexivity|exact Hrq].
  - apply Honce.
    + vm_compute. reflexivity.
    + vm_compute. repeat split; eexists; reflexivity.
  - specialize (Hmiss (VStrList ["fresh"])).
    rewrite Hlen in Hmiss. apply Hmiss.
    + vm_compute. reflexivity.
    + vm_compute. reflexivity.
  - apply Hfront. vm_compute. reflexivity.
  - apply Hrecent.
Defined.

(** On the full cache, whose entries all belong to object 1: one
    [tokenize] on object 4 evicts the oldest entry of object 1. *)
Lemma tokenize_cache_shared_by_instances_witness :
  (foldr (fun l n => entries_of l full_world + n) 0 [1%positive; 4%positive]
   <= length (w_cache full_world))%nat /\
  (length (w_cache full_world) <= 1024)%nat /\
  cached (1%positive, "1") full_world /\
  ~ cached (1%positive, "1")
      (snd (exec demo_ext (Invoke 4 (Tokenize "new")) full_world)) /\
  cached (4%positive, "new")
    (snd (exec demo_ext (Invoke 4 (Tokenize "new")) full_world)) /\
  length (w_cache (snd (exec demo_ext (Invoke 4 (Tokenize "new")) full_world))) =
    1024%nat.
Proof.
  rewrite full_world_nf_eq.
  assert (NoDup [1%positive; 4%positive]) as Hnd.
  { apply NoDup_cons. split; [|apply NoDup_singleton].
    rewrite list_elem_of_singleton. discriminate. }
  destruct (tokenize_cache_shared_by_instances demo_ext full_world_nf
              [1%positive; 4%positive] 1 4 "1" "new" full_nf_reachable Hnd)
    as (Hsum & Hsize & Hevict).
  split; [exact Hsum|]. split; [exact Hsize|].
  apply (Hevict (VStrList ["1"]) (VStrList ["new"])).
  - discriminate.
  - exists demo_glove_obj. split; [vm_compute; reflexivity|reflexivity].
  - vm_compute. reflexivity.
  - vm_compute. reflexivity.
  - vm_compute. reflexivity.
  - vm_compute. reflexivity.
Defined.

(** * Examples for the rest of the module *)

Lemma demo_obj_1 : w_heap demo_world !! 1%positive = Some demo_glove_obj.
Proof. vm_compute. reflexivity. Qed.

Lemma demo_obj_2 : w_heap demo_world !! 2%positive = Some demo_bpemb_obj.
Proof. vm_compute. reflexivity. Qed.

Lemma demo_obj_3 : w_heap demo_world !! 3%positive = Some demo_sentencepiece_obj.
Proof. vm_compute. reflexivity. Qed.

Lemma down_reachable : reachable down_ext down_world.
Proof. apply reachable_run, reach_init. Qed.

Lemma odd_reachable : reachable odd_ext odd_world.
Proof. apply reachable_run, reach_init. Qed.

(** The table of the GloVe instance moved to "cuda", which torch resolves
    to the first GPU; a device torch does not know leaves everything as it
    was. *)
Lemma to_moves_the_table_witness :
  (fst (exec demo_ext (Invoke 1 (To "cuda")) demo_world) = Ok VNone /\
   fst (exec demo_ext (Invoke 1 (Lookup "cat"))
          (snd (exec demo_ext (Invoke 1 (To "cuda")) demo_world))) =
     on_device "cuda:0" (fst (exec demo_ext (Invoke 1 (Lookup "cat")) demo_world)) /\
   fst (exec demo_ext (Invoke 1 (Contains "cat"))
          (snd (exec demo_ext (Invoke 1 (To "cuda")) demo_world))) =
     fst (exec demo_ext (Invoke 1 (Contains "cat")) demo_world) /\
   fst (getattr 1 "dim" (snd (exec demo_ext (Invoke 1 (To "cuda")) demo_world))) =
     fst (getattr 1 "dim" demo_world) /\
   w_cache (snd (exec demo_ext (Invoke 1 (To "cuda")) demo_world)) =
     w_cache demo_world /\
   w_requests (snd (exec demo_ext (Invoke 1 (To "cuda")) demo_world)) =
     w_requests demo_world /\
   w_environ (snd (exec demo_ext (Invoke 1 (To "cuda")) demo_world)) =
     w_environ demo_world) /\
  exec demo_ext (Invoke 1 (To "gpu0")) demo_world =
    (Raise (ExternalError "Expected one of cpu, cuda, ... device type"),
     demo_world).
Proof.
  split.
  - apply (to_moves_the_table demo_ext demo_world 1 demo_glove_obj "cuda" "cat").
    + exact demo_reachable.
    + exact demo_obj_1.
    + discriminate.
  - apply (to_moves_the_table demo_ext demo_world 1 demo_glove_obj "gpu0" "cat").
    + exact demo_reachable.
    + exact demo_obj_1.
    + discriminate.
Defined.

(** The GloVe instance after a move, a tokenization and a new instance. *)
Lemma answers_never_change_witness :
  let cs := [Invoke 1 (To "cuda:0"); Invoke 1 (Tokenize "Hello");
             New (New_GloVe "6B"); Invoke 2 (To "cuda:1")] in
  (forall d,
     on_device d (fst (exec demo_ext (Invoke 1 (Lookup "cat"))
                         (run demo_ext cs demo_world))) =
     on_device d (fst (exec demo_ext (Invoke 1 (Lookup "cat")) demo_world))) /\
  fst (exec demo_ext (Invoke 1 (Contains "cat")) (run demo_ext cs demo_world)) =
    fst (exec demo_ext (Invoke 1 (Contains "cat")) demo_world) /\
  fst (getattr 1 "dim" (run demo_ext cs demo_world)) =
    fst (getattr 1 "dim" demo_world).
Proof.
  apply (answers_never_change demo_ext demo_world 1 demo_glove_obj).
  - exact demo_reachable.
  - exact demo_obj_1.
Defined.

(** A move of object 1 leaves object 2 as it is. *)
Lemma calls_leave_other_instances_alone_witness :
  w_heap (snd (exec demo_ext (Invoke 1 (To "cuda:0")) demo_world)) !! 2%positive =
    Some demo_bpemb_obj.
Proof.
  apply (calls_leave_other_instances_alone demo_ext demo_world
           (Invoke 1 (To "cuda:0")) 2 demo_bpemb_obj).
  - exact demo_reachable.
  - exact demo_obj_2.
  - intros m. discriminate.
Defined.


(** The SentencePiece instance of the small installation. *)
Lemma SentencePiece_tokenize_contains_to_raise_witness :
  exec demo_ext (Invoke 3 (Tokenize "select 1")) demo_world =
    (Raise (AttributeError "encode"), demo_world) /\
  exec demo_ext (Invoke 3 (Contains "select")) demo_world =
    (Raise (AttributeError "bpemb"), demo_world) /\
  exec demo_ext (Invoke 3 (To "cuda:0")) demo_world =
    (Raise (AttributeError "vectors"), demo_world).
Proof.
  apply (SentencePiece_tokenize_contains_to_raise demo_ext demo_world 3
           demo_sentencepiece_obj).
  - exact demo_reachable.
  - exact demo_obj_3.
  - reflexivity.
Defined.

(** The tokens of "Hello World" are lower-cased. *)
Lemma tokenize_returns_lowercased_annotation_witness :
  exists n ann toks,
    ext_annotate demo_ext n "Hello World" = Ok ann /\
    VStrList ["hello world"] = VStrList toks /\
    toks = flat_map (fun sent => map (ext_str_lower demo_ext) sent) ann /\
    toks = map (ext_str_lower demo_ext) (concat ann) /\
    length toks = length (concat ann).
Proof.
  apply (tokenize_returns_lowercased_annotation demo_ext demo_world 1
           demo_glove_obj "Hello World").
  - exact demo_reachable.
  - exact demo_obj_1.
  - reflexivity.
  - vm_compute. reflexivity.
Defined.

(** The service is down: two calls, two errors, two requests, nothing
    cached. *)
Lemma failed_annotation_is_not_cached_witness :
  fst (exec down_ext (Invoke 1 (Tokenize "Hello")) down_world) =
    Raise (ExternalError "connection refused") /\
  w_cache (snd (exec down_ext (Invoke 1 (Tokenize "Hello")) down_world)) =
    w_cache down_world /\
  w_requests (snd (exec down_ext (Invoke 1 (Tokenize "Hello")) down_world)) =
    (1%positive, "Hello") :: w_requests down_world /\
  w_requests (run down_ext [Invoke 1 (Tokenize "Hello");
                            Invoke 1 (Tokenize "Hello")] down_world) =
    (1%positive, "Hello") :: (1%positive, "Hello") :: w_requests down_world.
Proof.
  apply (failed_annotation_is_not_cached down_ext down_world 1 demo_glove_obj).
  - exact down_reachable.
  - vm_compute. reflexivity.
  - reflexivity.
  - vm_compute. reflexivity.
  - vm_compute. reflexivity.
Defined.

(** The second tokenization of "Hello" changes nothing. *)
Lemma tokenize_again_changes_nothing_witness :
  exec demo_ext (Invoke 1 (Tokenize "Hello"))
    (snd (exec demo_ext (Invoke 1 (Tokenize "Hello")) demo_world)) =
  (Ok (VStrList ["hello"]),
   snd (exec demo_ext (Invoke 1 (Tokenize "Hello")) demo_world)).
Proof.
  apply (tokenize_again_changes_nothing demo_ext demo_world 1 demo_glove_obj).
  - exact demo_reachable.
  - exact demo_obj_1.
  - reflexivity.
  - vm_compute. reflexivity.
Defined.

(** The cached key of "Hello" is in the log. *)
Lemma cached_keys_were_requested_witness :
  (1%positive, "Hello") ∈
    w_requests (run demo_ext [Invoke 1 (Tokenize "Hello")] demo_world) /\
  (0 < requests_for (1%positive, "Hello")
         (run demo_ext [Invoke 1 (Tokenize "Hello")] demo_world))%nat /\
  is_GloVe (run demo_ext [Invoke 1 (Tokenize "Hello")] demo_world) 1.
Proof.
  apply (cached_keys_were_requested demo_ext
           (run demo_ext [Invoke 1 (Tokenize "Hello")] demo_world)
           (1%positive, "Hello") (VStrList ["hello"])).
  - apply reachable_run, demo_reachable.
  - vm_compute. reflexivity.
Defined.

(** Two token lists, joined. *)
Lemma GloVe_untokenize_joins_with_spaces_witness :
  exists s1 s2,
    exec demo_ext (Invoke 1 (Untokenize ["select"; "name"])) demo_world =
      (Ok (VStr s1), demo_world) /\
    exec demo_ext (Invoke 1 (Untokenize ["from"; "users"])) demo_world =
      (Ok (VStr s2), demo_world) /\
    exec demo_ext (Invoke 1 (Untokenize (["select"; "name"] ++ ["from"; "users"])))
      demo_world = (Ok (VStr (s1 ++ " " ++ s2)), demo_world) /\
    exec demo_ext (Invoke 1 (Untokenize [])) demo_world =
      (Ok (VStr ""), demo_world) /\
    (forall t, exec demo_ext (Invoke 1 (Untokenize [t])) demo_world =
               (Ok (VStr t), demo_world)).
Proof.
  apply (GloVe_untokenize_joins_with_spaces demo_ext demo_world 1 demo_glove_obj).
  - exact demo_reachable.
  - exact demo_obj_1.
  - reflexivity.
  - discriminate.
  - discriminate.
Defined.


(** "cat" is row 1 of the GloVe table, "_a" row 1 of the BPEmb table. *)
Lemma lookup_returns_the_indexed_row_witness :
  exec demo_ext (Invoke 1 (Lookup "cat")) demo_world =
    (Ok (VVector "cpu" [20; 21]%Z), demo_world) /\
  exec demo_ext (Invoke 2 (Lookup "_a")) demo_world =
    (Ok (VVector "cpu" [4; 5; 6]%Z), demo_world).
Proof.
  destruct (lookup_returns_the_indexed_row demo_ext demo_world 1 demo_glove_obj
              "cat" demo_reachable demo_obj_1) as [Hglove _].
  destruct (lookup_returns_the_indexed_row demo_ext demo_world 2 demo_bpemb_obj
              "_a" demo_reachable demo_obj_2) as [_ Hbpemb].
  split.
  - apply (Hglove demo_glove "cpu" (tt_vectors demo_glove) 1%Z);
      try reflexivity. lia.
  - apply (Hbpemb demo_bpemb "cpu" (bp_vectors demo_bpemb));
      try reflexivity; try discriminate.
Defined.

(** Indices 5 and -1 on a table of two rows, and the piece id 7. *)
Lemma lookup_index_out_of_range_witness :
  (exec odd_ext (Invoke 1 (Lookup "far")) odd_world = (Raise IndexError, odd_world) /\
   exec odd_ext (Invoke 1 (Contains "far")) odd_world =
     (Ok (VBool true), odd_world)) /\
  (exists dev row,
     tt_vectors odd_glove !! Z.to_nat (-1 + Z.of_nat (length (tt_vectors odd_glove)))
       = Some row /\
     exec odd_ext (Invoke 1 (Lookup "last")) odd_world =
       (Ok (VVector dev row), odd_world)) /\
  (exec odd_ext (Invoke 2 (Lookup "far")) odd_world = (Raise IndexError, odd_world) /\
   exec odd_ext (Invoke 2 (Contains "far")) odd_world =
     (Raise IndexError, odd_world)).
Proof.
  assert (w_heap odd_world !! 1%positive = Some odd_glove_obj) as H1
    by (vm_compute; reflexivity).
  assert (w_heap odd_world !! 2%positive = Some odd_bpemb_obj) as H2
    by (vm_compute; reflexivity).
  destruct (lookup_index_out_of_range odd_ext odd_world 1 odd_glove_obj "far"
              odd_reachable H1) as [Hfar _].
  destruct (lookup_index_out_of_range odd_ext odd_world 1 odd_glove_obj "last"
              odd_reachable H1) as [Hlast _].
  destruct (lookup_index_out_of_range odd_ext odd_world 2 odd_bpemb_obj "far"
              odd_reachable H2) as [_ Hpiece].
  split; [|split].
  - apply (Hfar odd_glove 5%Z); try reflexivity. simpl. lia.
  - apply (Hlast odd_glove (-1)%Z); try reflexivity. simpl. lia.
  - apply (Hpiece odd_bpemb); try reflexivity; [discriminate|]. simpl. lia.
Defined.
